(** * stern/watch.go: the pod watch loop, embedded and verified

    The file follows [src/stern/watch.go].  The Kubernetes API objects the
    loop reads ([corev1.Pod], [watch.Event]) are records with the fields the
    loop touches; regular expressions and the container-state classifier,
    which live outside [watch.go], are boolean functions supplied by the
    caller.  The goroutine started by [Watch] is a labelled transition
    system whose control points are the places where the Go code can block:
    the [select] at the head of the loop and the two channel sends. *)

From Stdlib Require Import List Ascii String ZArith Bool Arith Lia.
Import ListNotations.

Local Open Scope string_scope.
Local Open Scope list_scope.

(** ** The API objects read by the loop *)

Module corev1.

(** [corev1.ContainerState]: three pointer members, of which the loop only
    ever forwards the whole value to the classifier.  A member is [true]
    when the pointer is not nil. *)
Record ContainerState : Type := mkContainerState {
  Waiting : bool;
  Running : bool;
  Terminated : bool
}.

Module ContainerStatus.
Record t : Type := mk { Name : string; State : ContainerState }.
End ContainerStatus.

Module Container.
Record t : Type := mk { Name : string }.
End Container.

Record PodStatus : Type := mkPodStatus {
  ContainerStatuses : list ContainerStatus.t;
  InitContainerStatuses : list ContainerStatus.t
}.

Record PodSpec : Type := mkPodSpec {
  Containers : list Container.t;
  InitContainers : list Container.t
}.

Module Pod.
Record t : Type := mk {
  Namespace : string;
  Name : string;
  Spec : PodSpec;
  Status : PodStatus
}.
End Pod.

End corev1.

Module watch.

(** [watch.EventType] is a string in Go; the named constants of the
    package are kept and every other value is [Other]. *)
Inductive EventType : Type :=
| Added | Modified | Deleted | Bookmark | Error | Other (s : string).

(** [runtime.Object]: the loop only asks whether it is a [*corev1.Pod]. *)
Inductive Object : Type :=
| PodObject (pod : corev1.Pod.t)
| NotAPod.

(** [Object = None] is the nil interface value, which is also what a
    receive on the closed result channel yields. *)
Record Event : Type := mk { Type_ : EventType; Object_ : option Object }.

End watch.

(** ** Target *)

Module Target.
Record t : Type := mk {
  Namespace : string;
  Pod : string;
  Container : string
}.

(** [fmt.Sprintf("%s-%s-%s", t.Namespace, t.Pod, t.Container)] *)
Definition GetID (t : t) : string :=
  (Namespace t ++ "-" ++ Pod t ++ "-" ++ Container t)%string.

Definition eqb (a b : t) : bool :=
  String.eqb (Namespace a) (Namespace b)
  && String.eqb (Pod a) (Pod b)
  && String.eqb (Container a) (Container b).
End Target.

(** ** The arguments of [Watch] *)

(** The classifier [ContainerState] of package [stern] is declared outside
    [watch.go]; the loop calls [containerState.Match(c.State)] and
    [containerState.has(ALL)] and nothing else. *)
Record ContainerStateClassifier : Type := mkClassifier {
  Match : corev1.ContainerState -> bool;
  has_ALL : bool
}.

(** A [*regexp.Regexp] is used through [MatchString] only. *)
Definition Regexp : Type := string -> bool.

Record Config : Type := mkConfig {
  podFilter : Regexp;
  containerFilter : Regexp;
  containerExcludeFilter : option Regexp;   (* nil when unset *)
  initContainers : bool;
  containerState : ContainerStateClassifier
}.

(** ** [contains] and the deletion idiom on [podNameList] *)

(** The [for index, podName := range podNameSlice] loop of [contains],
    started at [index]. *)
Fixpoint contains_from (index : Z) (podNameSlice : list string)
    (podNameItem : string) : Z :=
  match podNameSlice with
  | [] => (-1)%Z
  | podName :: rest =>
      if String.eqb podName podNameItem then index
      else contains_from (index + 1)%Z rest podNameItem
  end.

Definition contains (podNameSlice : list string) (podNameItem : string) : Z :=
  contains_from 0%Z podNameSlice podNameItem.

(** [copy(dst, src)] where [dst] is [l[off:]]: overwrites
    [min(len(dst), len(src))] cells of [l] from position [off]. *)
Definition slice_copy (off : nat) (src l : list string) : list string :=
  let n := Nat.min (List.length l - off) (List.length src) in
  firstn off l ++ firstn n src ++ skipn (off + n) l.

(** [l[i] = v]; the loop only writes inside the slice. *)
Fixpoint slice_set (i : nat) (v : string) (l : list string) : list string :=
  match l, i with
  | [], _ => []
  | _ :: rest, O => v :: rest
  | x :: rest, S j => x :: slice_set j v rest
  end.

(** The three statements
    [copy(podNameList[index:], podNameList[index+1:])],
    [podNameList[len(podNameList)-1] = ""],
    [podNameList = podNameList[:len(podNameList)-1]]. *)
Definition delete_at (index : nat) (podNameList : list string) : list string :=
  let l1 := slice_copy index (skipn (index + 1) podNameList) podNameList in
  let l2 := slice_set (List.length l1 - 1) "" l1 in
  firstn (List.length l2 - 1) l2.

(** [index := contains(podNameList, pod.Name); if index != -1 { ... }] *)
Definition deregister (podNameList : list string) (name : string) : list string :=
  let index := contains podNameList name in
  if Z.eqb index (-1)%Z then podNameList
  else delete_at (Z.to_nat index) podNameList.

(** ** The body of the loop, one container at a time *)

Inductive Chan : Type := added | removed.

Definition Chan_eqb (a b : Chan) : bool :=
  match a, b with
  | added, added | removed, removed => true
  | _, _ => false
  end.

(** A value sent on one of the two channels. *)
Definition Emission : Type := (Chan * Target.t)%type.

(** The two [continue] guards at the head of both [range] loops. *)
Definition skipped (cfg : Config) (name : string) : bool :=
  if negb (containerFilter cfg name) then true
  else match containerExcludeFilter cfg with
       | Some exclude => exclude name
       | None => false
       end.

Definition target_of (pod : corev1.Pod.t) (container : string) : Target.t :=
  Target.mk (corev1.Pod.Namespace pod) (corev1.Pod.Name pod) container.

(** Lines 83-114 for one [c]: the new [podNameList] and the send the
    goroutine then blocks on, if any. *)
Definition status_body (cfg : Config) (pod : corev1.Pod.t)
    (c : corev1.ContainerStatus.t) (podNameList : list string)
    : list string * option Emission :=
  let name := corev1.ContainerStatus.Name c in
  if skipped cfg name then (podNameList, None)
  else
    let t := target_of pod name in
    if Match (containerState cfg) (corev1.ContainerStatus.State c) then
      (podNameList ++ [corev1.Pod.Name pod], Some (added, t))
    else if has_ALL (containerState cfg) then
      if Z.eqb (contains podNameList (corev1.Pod.Name pod)) (-1)%Z then
        (podNameList ++ [corev1.Pod.Name pod], Some (added, t))
      else (podNameList, None)
    else
      (deregister podNameList (corev1.Pod.Name pod), Some (removed, t)).

(** Lines 124-143 for one [c]. *)
Definition container_body (cfg : Config) (pod : corev1.Pod.t)
    (c : corev1.Container.t) (podNameList : list string)
    : list string * option Emission :=
  let name := corev1.Container.Name c in
  if skipped cfg name then (podNameList, None)
  else
    (deregister podNameList (corev1.Pod.Name pod),
     Some (removed, target_of pod name)).

(** [statuses] as built on lines 76-80 and [containers] on lines 117-121. *)
Definition statuses_of (cfg : Config) (pod : corev1.Pod.t)
    : list corev1.ContainerStatus.t :=
  corev1.ContainerStatuses (corev1.Pod.Status pod)
  ++ (if initContainers cfg
      then corev1.InitContainerStatuses (corev1.Pod.Status pod) else []).

Definition containers_of (cfg : Config) (pod : corev1.Pod.t)
    : list corev1.Container.t :=
  corev1.Containers (corev1.Pod.Spec pod)
  ++ (if initContainers cfg
      then corev1.InitContainers (corev1.Pod.Spec pod) else []).

(** ** The goroutine as a transition system *)

(** Where a [range] loop is resumed once a blocked send has been taken. *)
Inductive Resume : Type :=
| InStatuses (pod : corev1.Pod.t) (rest : list corev1.ContainerStatus.t)
| InContainers (pod : corev1.Pod.t) (rest : list corev1.Container.t).

(** The points at which the goroutine can be found waiting. *)
Inductive Control : Type :=
| AtSelect                                  (* line 58 *)
| AtSend (e : Emission) (k : Resume)        (* lines 97, 102, 112, 139 *)
| Returned.                                 (* lines 62 and 151 *)

(** [for _, c := range statuses], run until the goroutine blocks. *)
Fixpoint range_statuses (cfg : Config) (pod : corev1.Pod.t)
    (statuses : list corev1.ContainerStatus.t) (podNameList : list string)
    : list string * Control :=
  match statuses with
  | [] => (podNameList, AtSelect)
  | c :: rest =>
      match status_body cfg pod c podNameList with
      | (l, Some e) => (l, AtSend e (InStatuses pod rest))
      | (l, None) => range_statuses cfg pod rest l
      end
  end.

(** [for _, c := range containers], run until the goroutine blocks. *)
Fixpoint range_containers (cfg : Config) (pod : corev1.Pod.t)
    (containers : list corev1.Container.t) (podNameList : list string)
    : list string * Control :=
  match containers with
  | [] => (podNameList, AtSelect)
  | c :: rest =>
      match container_body cfg pod c podNameList with
      | (l, Some e) => (l, AtSend e (InContainers pod rest))
      | (l, None) => range_containers cfg pod rest l
      end
  end.

Definition resume (cfg : Config) (k : Resume) (podNameList : list string)
    : list string * Control :=
  match k with
  | InStatuses pod rest => range_statuses cfg pod rest podNameList
  | InContainers pod rest => range_containers cfg pod rest podNameList
  end.

(** [case e := <-watcher.ResultChan()], lines 59-146, up to the first
    send. *)
Definition on_result (cfg : Config) (e : watch.Event)
    (podNameList : list string) : list string * Control :=
  match watch.Object_ e with
  | None => (podNameList, Returned)
  | Some watch.NotAPod => (podNameList, AtSelect)
  | Some (watch.PodObject pod) =>
      if negb (podFilter cfg (corev1.Pod.Name pod)) then (podNameList, AtSelect)
      else
        match watch.Type_ e with
        | watch.Added | watch.Modified =>
            range_statuses cfg pod (statuses_of cfg pod) podNameList
        | watch.Deleted =>
            range_containers cfg pod (containers_of cfg pod) podNameList
        | _ => (podNameList, AtSelect)
        end
  end.

(** The goroutine's variable [podNameList] and control point, together
    with what its environment can observe: whether [ctx] is cancelled, how
    often [watcher.Stop()] was called, which channels were closed, and the
    values received from the channels so far, oldest first. *)
Record State : Type := mkState {
  podNameList : list string;
  pc : Control;
  ctxDone : bool;
  watcherStops : nat;
  addedClosed : bool;
  removedClosed : bool;
  sent : list Emission
}.

(** The state in which [Watch] leaves the goroutine it starts. *)
Definition started : State :=
  mkState [] AtSelect false 0 false false [].

Inductive WatchResult : Type :=
| WatchFailed (err : string)
| WatchStarted (s : State).

(** [Watch] up to [go func()]: [i_Watch] is the error of [i.Watch(...)],
    if any. *)
Definition Watch (i_Watch : option string) : WatchResult :=
  match i_Watch with
  | Some err => WatchFailed ("failed to set up watch: " ++ err)%string
  | None => WatchStarted started
  end.

Inductive Action : Type :=
| Cancel                      (* the caller cancels [ctx] *)
| Result (e : watch.Event)    (* [select] takes the result case with [e] *)
| Done                        (* [select] takes [<-ctx.Done()] *)
| Receive.                    (* a consumer takes the value being sent *)

(** One transition; [None] when the action cannot happen in [s].  The two
    cases of the [select] are open only at [AtSelect], the [ctx.Done()]
    case only once [ctx] is cancelled; when both are ready Go picks either. *)
Definition step (cfg : Config) (s : State) (a : Action) : option State :=
  match a, pc s with
  | Cancel, _ =>
      Some (mkState (podNameList s) (pc s) true (watcherStops s)
                    (addedClosed s) (removedClosed s) (sent s))
  | Result e, AtSelect =>
      let (l, c) := on_result cfg e (podNameList s) in
      Some (mkState l c (ctxDone s) (watcherStops s)
                    (addedClosed s) (removedClosed s) (sent s))
  | Done, AtSelect =>
      if ctxDone s then
        Some (mkState (podNameList s) Returned true (S (watcherStops s))
                      true true (sent s))
      else None
  | Receive, AtSend e k =>
      let (l, c) := resume cfg k (podNameList s) in
      Some (mkState l c (ctxDone s) (watcherStops s)
                    (addedClosed s) (removedClosed s) (sent s ++ [e]))
  | _, _ => None
  end.

Fixpoint exec (cfg : Config) (s : State) (schedule : list Action)
    : option State :=
  match schedule with
  | [] => Some s
  | a :: rest =>
      match step cfg s a with
      | Some s' => exec cfg s' rest
      | None => None
      end
  end.

(** ** Event handling with consumers that take every value *)

(** What one container contributes: the registry afterwards and the values
    sent. *)
Definition emitted (r : list string * option Emission) : list Emission :=
  match snd r with Some e => [e] | None => [] end.

Fixpoint all_statuses (cfg : Config) (pod : corev1.Pod.t)
    (statuses : list corev1.ContainerStatus.t) (podNameList : list string)
    : list string * list Emission :=
  match statuses with
  | [] => (podNameList, [])
  | c :: rest =>
      let r := status_body cfg pod c podNameList in
      let (l, out) := all_statuses cfg pod rest (fst r) in
      (l, emitted r ++ out)
  end.

Fixpoint all_containers (cfg : Config) (pod : corev1.Pod.t)
    (containers : list corev1.Container.t) (podNameList : list string)
    : list string * list Emission :=
  match containers with
  | [] => (podNameList, [])
  | c :: rest =>
      let r := container_body cfg pod c podNameList in
      let (l, out) := all_containers cfg pod rest (fst r) in
      (l, emitted r ++ out)
  end.

(** One iteration of the [for] loop on the result case, every send taken:
    the registry afterwards and the values sent, in order. *)
Definition handle (cfg : Config) (e : watch.Event) (podNameList : list string)
    : list string * list Emission :=
  match watch.Object_ e with
  | None => (podNameList, [])
  | Some watch.NotAPod => (podNameList, [])
  | Some (watch.PodObject pod) =>
      if negb (podFilter cfg (corev1.Pod.Name pod)) then (podNameList, [])
      else
        match watch.Type_ e with
        | watch.Added | watch.Modified =>
            all_statuses cfg pod (statuses_of cfg pod) podNameList
        | watch.Deleted =>
            all_containers cfg pod (containers_of cfg pod) podNameList
        | _ => (podNameList, [])
        end
  end.

(** A sequence of events; the loop is left at the first one without an
    object (line 62) and the later ones are never read. *)
Fixpoint handle_all (cfg : Config) (events : list watch.Event)
    (podNameList : list string) : list string * list Emission :=
  match events with
  | [] => (podNameList, [])
  | e :: rest =>
      match watch.Object_ e with
      | None => (podNameList, [])
      | Some _ =>
          let (l, out) := handle cfg e podNameList in
          let (l', out') := handle_all cfg rest l in
          (l', out ++ out')
      end
  end.

(** The schedule in which the events arrive one after the other and every
    value sent is received before the next event. *)
Fixpoint cooperative (cfg : Config) (events : list watch.Event)
    (podNameList : list string) : list Action :=
  match events with
  | [] => []
  | e :: rest =>
      match watch.Object_ e with
      | None => [Result e]
      | Some _ =>
          let (l, out) := handle cfg e podNameList in
          Result e :: repeat Receive (List.length out)
            ++ cooperative cfg rest l
      end
  end.

(** ** Notions used to state the properties *)

(** The registry without the first occurrence of [name]. *)
Fixpoint remove_first (name : string) (l : list string) : list string :=
  match l with
  | [] => []
  | x :: rest => if String.eqb x name then rest else x :: remove_first name rest
  end.

Definition occurrences (name : string) (l : list string) : nat :=
  count_occ string_dec l name.

Arguments occurrences : simpl never.

(** Whether a value was sent for the parent [name]. *)
Definition about (name : string) (e : Emission) : bool :=
  String.eqb (Target.Pod (snd e)) name.

(** The effect one notification for [name] has on the number of
    occurrences of [name]: an [added] adds one, a [removed] takes one away
    when there is one. *)
Definition replay (name : string) (n : nat) (e : Emission) : nat :=
  if about name e then
    match fst e with
    | added => S n
    | removed => Nat.pred n
    end
  else n.

Definition replay_all (name : string) (n : nat) (trace : list Emission) : nat :=
  fold_left (replay name) trace n.

Arguments replay_all : simpl never.

(** The channel of the most recent notification for [name], if any. *)
Definition most_recent (name : string) (trace : list Emission) : option Chan :=
  match filter (about name) (rev trace) with
  | e :: _ => Some (fst e)
  | [] => None
  end.

(** The value the goroutine is blocked sending, if it is. *)
Definition pending (c : Control) : list Emission :=
  match c with
  | AtSend e _ => [e]
  | _ => []
  end.

Definition sent_on (ch : Chan) (t : Target.t) (trace : list Emission) : nat :=
  List.length
    (filter (fun e => Chan_eqb (fst e) ch && Target.eqb (snd e) t) trace).

Definition is_upsert (ty : watch.EventType) : bool :=
  match ty with
  | watch.Added | watch.Modified => true
  | _ => false
  end.

Definition is_deleted (ty : watch.EventType) : bool :=
  match ty with
  | watch.Deleted => true
  | _ => false
  end.

(** ** Notions about runs *)

(** Where the loop stands with registry [l] at control point [c] after
    sending [more], the rest of the state being that of [s]. *)
Definition moved (s : State) (l : list string) (c : Control)
    (more : list Emission) : State :=
  mkState l c (ctxDone s) (watcherStops s) (addedClosed s)
          (removedClosed s) (sent s ++ more).

Definition has_object (e : watch.Event) : bool :=
  match watch.Object_ e with Some _ => true | None => false end.

(** The number of occurrences of [name] is what the notifications for
    [name] replay to, the value being sent counted as a notification. *)
Definition registry_replays (s : State) : Prop :=
  forall name,
    occurrences name (podNameList s)
    = replay_all name 0 (sent s ++ pending (pc s)).


(** ** Sample inputs *)

Module Sample.

Definition waiting : corev1.ContainerState :=
  corev1.mkContainerState true false false.
Definition running : corev1.ContainerState :=
  corev1.mkContainerState false true false.
Definition terminated : corev1.ContainerState :=
  corev1.mkContainerState false false true.

Definition any : Regexp := fun _ => true.
Definition only (name : string) : Regexp := String.eqb name.

(** A classifier for the running state, with or without [ALL]. *)
Definition running_only (all : bool) : ContainerStateClassifier :=
  mkClassifier corev1.Running all.

Definition cfg (all : bool) : Config :=
  mkConfig any any None false (running_only all).

(** As [cfg false], with the exclusion pattern matching [c2]. *)
Definition cfg_exclude : Config :=
  mkConfig any any (Some (only "c2")) true (running_only false).

Definition status (name : string) (st : corev1.ContainerState)
    : corev1.ContainerStatus.t :=
  corev1.ContainerStatus.mk name st.

(** Pod [ns/p1] with the given container statuses and, in its
    specification, the containers of the same names. *)
Definition p1 (statuses : list corev1.ContainerStatus.t) : corev1.Pod.t :=
  corev1.Pod.mk "ns" "p1"
    (corev1.mkPodSpec
       (map (fun c => corev1.Container.mk (corev1.ContainerStatus.Name c))
            statuses) [])
    (corev1.mkPodStatus statuses []).

Definition event (ty : watch.EventType) (pod : corev1.Pod.t) : watch.Event :=
  watch.mk ty (Some (watch.PodObject pod)).

Definition closed : watch.Event := watch.mk watch.Error None.

Definition t11 : Target.t := Target.mk "ns" "p1" "c1".
Definition t12 : Target.t := Target.mk "ns" "p1" "c2".

End Sample.

(** ** The claims that fail, as they are worded *)

(** The claim as the specification words it: a name occurs at most once,
    and is a member exactly when the most recent notification for it was
    an [added]. *)
Definition registry_is_a_set (cfg : Config) (schedule : list Action) : Prop :=
  forall s, exec cfg started schedule = Some s ->
  forall name,
    occurrences name (podNameList s) <= 1 /\
    (In name (podNameList s) <-> most_recent name (sent s) = Some added).

Module SampleRuns.
Import Sample.

(** [c1] of [p1] is reported running twice. *)
Definition running_twice : list watch.Event :=
  [event watch.Added (p1 [status "c1" running]);
   event watch.Modified (p1 [status "c1" running])].

Definition after_running_twice : State :=
  mkState ["p1"; "p1"] AtSelect false 0 false false
    [(added, t11); (added, t11)].

(** The goroutine as line 62 leaves it when it was just started. *)
Definition left_at_line_62 : State :=
  mkState [] Returned false 0 false false [].

(** [c1] of [p1] is reported running and nobody has taken the value. *)
Definition c1_runs : watch.Event :=
  event watch.Added (p1 [status "c1" running]).

(** Blocked on line 97 with [ctx] cancelled. *)
Definition sending_c1 : State :=
  mkState ["p1"]
    (AtSend (added, t11) (InStatuses (p1 [status "c1" running]) []))
    true 0 false false [].

Definition cancelled_at_select : State :=
  mkState [] AtSelect true 0 false false [].

(** Both containers of [p1] run; [cfg_exclude] excludes [c2]. *)
Definition both_run : watch.Event :=
  event watch.Added (p1 [status "c1" running; status "c2" running]).

End SampleRuns.

(** The claim on cancellation as the specification words it: at whatever
    point of a run [ctx] is cancelled, what the goroutine does is stop the
    watch once, close both channels and return, and nothing more is
    sent. *)
Definition cancellation_stops_anywhere (cfg : Config) (schedule : list Action)
    : Prop :=
  forall s, exec cfg started (schedule ++ [Cancel]) = Some s ->
  pc s <> Returned ->
  exists s',
    step cfg s Done = Some s' /\ pc s' = Returned /\ watcherStops s' = 1 /\
    addedClosed s' = true /\ removedClosed s' = true /\ sent s' = sent s.

(** What every reachable state satisfies: before the goroutine returns
    the watch was not stopped and no channel was closed. *)
Definition running_untouched (s : State) : Prop :=
  pc s <> Returned ->
  watcherStops s = 0 /\ addedClosed s = false /\ removedClosed s = false.

(** ** Invariants of the values sent *)

(** Every value sent or being sent is for a container that passed the two
    guards. *)
Definition sends_unskipped (cfg : Config) (s : State) : Prop :=
  forall e, In e (sent s ++ pending (pc s)) ->
            skipped cfg (Target.Container (snd e)) = false.

(** The goroutine is not inside the loop of the [Deleted] case. *)
Definition outside_deleted (c : Control) : Prop :=
  match c with
  | AtSend _ (InContainers _ _) => False
  | _ => True
  end.

(** Any action but the arrival of a [Deleted] event. *)
Definition not_deleted (a : Action) : Prop :=
  match a with
  | Result e => is_deleted (watch.Type_ e) = false
  | _ => True
  end.

Definition sends_added_only (s : State) : Prop :=
  outside_deleted (pc s) /\
  forall e, In e (sent s ++ pending (pc s)) -> fst e = added.

(** The claim on a container that stops matching, as the specification
    words it: when, after the events [earlier], the status loop reaches
    [c] (the statuses [pre] of the pod come before it), a [removed] is sent
    for it and the registry loses one occurrence of the parent name. *)
Definition transition_removes_one (cfg : Config) (earlier : list watch.Event)
    (pod : corev1.Pod.t) (pre : list corev1.ContainerStatus.t)
    (c : corev1.ContainerStatus.t) : Prop :=
  let before :=
    fst (all_statuses cfg pod pre (fst (handle_all cfg earlier []))) in
  let r := status_body cfg pod c before in
  snd r = Some (removed, target_of pod (corev1.ContainerStatus.Name c)) /\
  S (occurrences (corev1.Pod.Name pod) (fst r))
  = occurrences (corev1.Pod.Name pod) before.

(** The children of a [Deleted] pod that pass the two guards. *)
Definition survivors (cfg : Config) (containers : list corev1.Container.t)
    : list corev1.Container.t :=
  filter (fun c => negb (skipped cfg (corev1.Container.Name c))) containers.

(** No other status in the list carries the name of [c]. *)
Definition sole_name (c : corev1.ContainerStatus.t)
    (others : list corev1.ContainerStatus.t) : Prop :=
  forall c', In c' others ->
             corev1.ContainerStatus.Name c' <> corev1.ContainerStatus.Name c.

(** ** Notions for the further properties *)

(** Whether a name contains the separator [GetID] joins with. *)
Fixpoint has_dash (s : string) : bool :=
  match s with
  | EmptyString => false
  | String c rest => Ascii.eqb c "-"%char || has_dash rest
  end.

(** The statuses that pass the two guards. *)
Definition kept_statuses (cfg : Config)
    (statuses : list corev1.ContainerStatus.t)
    : list corev1.ContainerStatus.t :=
  filter (fun c => negb (skipped cfg (corev1.ContainerStatus.Name c)))
    statuses.

(** What the status loop sends for [c] when the wildcard is off, and what
    it does to the registry. *)
Definition verdict (cfg : Config) (pod : corev1.Pod.t)
    (c : corev1.ContainerStatus.t) : Emission :=
  (if Match (containerState cfg) (corev1.ContainerStatus.State c)
   then added else removed,
   target_of pod (corev1.ContainerStatus.Name c)).

Definition settle (cfg : Config) (pod : corev1.Pod.t) (l : list string)
    (c : corev1.ContainerStatus.t) : list string :=
  if Match (containerState cfg) (corev1.ContainerStatus.State c)
  then l ++ [corev1.Pod.Name pod]
  else remove_first (corev1.Pod.Name pod) l.

(** The pod a blocked loop is working on. *)
Definition pod_in_hand (c : Control) : option corev1.Pod.t :=
  match c with
  | AtSend _ (InStatuses pod _) => Some pod
  | AtSend _ (InContainers pod _) => Some pod
  | _ => None
  end.

Definition registry_filtered (cfg : Config) (l : list string) : Prop :=
  forall name, In name l -> podFilter cfg name = true.

Definition value_filtered (cfg : Config) (e : Emission) : Prop :=
  podFilter cfg (Target.Pod (snd e)) = true /\
  containerFilter cfg (Target.Container (snd e)) = true.

(** Everything the goroutine holds went through the filters: the values
    sent or being sent, the names in the registry and the pod in hand. *)
Definition all_filtered (cfg : Config) (s : State) : Prop :=
  (forall e, In e (sent s ++ pending (pc s)) -> value_filtered cfg e) /\
  registry_filtered cfg (podNameList s) /\
  (forall pod, pod_in_hand (pc s) = Some pod ->
               podFilter cfg (corev1.Pod.Name pod) = true).


(** The number of children an event lists for the loop to range over. *)
Definition candidates (cfg : Config) (ev : watch.Event) : nat :=
  match watch.Object_ ev with
  | Some (watch.PodObject pod) =>
      match watch.Type_ ev with
      | watch.Added | watch.Modified => List.length (statuses_of cfg pod)
      | watch.Deleted => List.length (containers_of cfg pod)
      | _ => 0
      end
  | _ => 0
  end.

(** * Properties *)

(** ** The slice idioms *)

Lemma slice_set_middle (a : list string) (z v : string) (r : list string) :
  slice_set (List.length a) v (a ++ z :: r) = a ++ v :: r.
Proof.
  induction a as [|x a IH]; simpl; [reflexivity|].
  now rewrite IH.
Qed.

Lemma length_one_inv (l : list string) :
  List.length l = 1 -> exists z, l = [z].
Proof.
  destruct l as [|z [|y l]]; simpl; try discriminate.
  intros _. now exists z.
Qed.

(** The copy/clear/truncate sequence deletes the cell at [index]. *)
Lemma delete_at_spec (index : nat) (l : list string) :
  index < List.length l ->
  delete_at index l = firstn index l ++ skipn (S index) l.
Proof.
  intros Hlt. unfold delete_at, slice_copy.
  replace (index + 1) with (S index) by lia.
  rewrite length_skipn.
  replace (Nat.min (List.length l - index) (List.length l - S index))
    with (List.length l - S index) by lia.
  rewrite (firstn_all2 (n := List.length l - S index) (skipn (S index) l))
    by (rewrite length_skipn; lia).
  replace (index + (List.length l - S index)) with (List.length l - 1) by lia.
  destruct (length_one_inv (skipn (List.length l - 1) l)) as [z Hz].
  { rewrite length_skipn. lia. }
  rewrite Hz, app_assoc.
  set (a := firstn index l ++ skipn (S index) l).
  assert (Ha : List.length a = List.length l - 1).
  { unfold a. rewrite length_app, length_firstn, length_skipn. lia. }
  replace (List.length (a ++ [z]) - 1) with (List.length a)
    by (rewrite length_app; simpl; lia).
  rewrite slice_set_middle.
  replace (List.length (a ++ [""]) - 1) with (List.length a + 0)
    by (rewrite length_app; simpl; lia).
  rewrite firstn_app_2. simpl. now rewrite app_nil_r.
Qed.

(** ** [contains] finds the first occurrence *)

Lemma contains_from_range (name : string) (l : list string) (k : Z) :
  contains_from k l name = (-1)%Z \/
  (k <= contains_from k l name < k + Z.of_nat (List.length l))%Z.
Proof.
  revert k. induction l as [|x l IH]; intros k; simpl; [now left|].
  destruct (String.eqb x name).
  - right. lia.
  - destruct (IH (k + 1)%Z) as [H|H]; [now left|right; lia].
Qed.

Lemma contains_from_absent (name : string) (l : list string) (k : Z) :
  (0 <= k)%Z ->
  (contains_from k l name = (-1)%Z <-> ~ In name l).
Proof.
  revert k. induction l as [|x l IH]; intros k Hk; simpl.
  - tauto.
  - destruct (String.eqb_spec x name) as [->|Hne].
    + split; [lia|]. intros H. exfalso. apply H. now left.
    + rewrite (IH (k + 1)%Z) by lia. split.
      * intros H [E|E]; [now apply Hne|now apply H].
      * intros H E. apply H. now right.
Qed.

Lemma contains_absent (name : string) (l : list string) :
  contains l name = (-1)%Z <-> ~ In name l.
Proof. apply contains_from_absent. lia. Qed.

Lemma contains_from_found (name : string) (l : list string) (k : Z) :
  (0 <= k)%Z ->
  contains_from k l name <> (-1)%Z ->
  let i := Z.to_nat (contains_from k l name - k) in
  i < List.length l /\
  firstn i l ++ skipn (S i) l = remove_first name l.
Proof.
  revert k. induction l as [|x l IH]; intros k Hk; simpl.
  - intros H. now contradiction H.
  - destruct (String.eqb x name).
    + intros _. replace (k - k)%Z with 0%Z by lia. simpl. split; [lia|reflexivity].
    + intros Hf. destruct (IH (k + 1)%Z ltac:(lia) Hf) as [Hlt Heq].
      destruct (contains_from_range name l (k + 1)) as [E|E];
        [contradiction|].
      replace (Z.to_nat (contains_from (k + 1) l name - k))
        with (S (Z.to_nat (contains_from (k + 1) l name - (k + 1)))) by lia.
      simpl. split; [lia|]. f_equal. exact Heq.
Qed.

(** The conditional deletion removes the first occurrence of the name, or
    nothing when there is none. *)
Lemma deregister_spec (l : list string) (name : string) :
  deregister l name = remove_first name l.
Proof.
  unfold deregister.
  destruct (Z.eqb_spec (contains l name) (-1)) as [E|E].
  - apply contains_absent in E. clear - E.
    induction l as [|x l IH]; simpl; [reflexivity|].
    destruct (String.eqb_spec x name) as [->|Hne].
    + exfalso. apply E. now left.
    + f_equal. apply IH. intros H. apply E. now right.
  - unfold contains in *.
    destruct (contains_from_found name l 0 ltac:(lia) E) as [Hlt Heq].
    rewrite Z.sub_0_r in Hlt, Heq.
    rewrite delete_at_spec by exact Hlt. exact Heq.
Qed.

Lemma occurrences_app (name : string) (l1 l2 : list string) :
  occurrences name (l1 ++ l2) = occurrences name l1 + occurrences name l2.
Proof. unfold occurrences. apply count_occ_app. Qed.

Lemma occurrences_member (name : string) (l : list string) :
  In name l <-> 0 < occurrences name l.
Proof. unfold occurrences. apply count_occ_In. Qed.

Lemma occurrences_remove_first (name x : string) (l : list string) :
  occurrences name (remove_first x l) =
  if String.eqb x name then Nat.pred (occurrences name l)
  else occurrences name l.
Proof.
  unfold occurrences. induction l as [|y l IH]; simpl.
  - now destruct (String.eqb x name).
  - destruct (String.eqb_spec y x) as [->|Hyx].
    + destruct (String.eqb_spec x name) as [->|Hxn].
      * now destruct (string_dec name name).
      * now destruct (string_dec x name).
    + simpl. destruct (string_dec y name) as [->|Hyn].
      * rewrite IH. destruct (String.eqb_spec x name) as [->|Hxn];
          [now contradiction Hyx|reflexivity].
      * exact IH.
Qed.

Lemma remove_first_absent (x : string) (l : list string) :
  ~ In x l -> remove_first x l = l.
Proof.
  induction l as [|y l IH]; simpl; [reflexivity|].
  intros H. destruct (String.eqb_spec y x) as [E|_].
  - exfalso. apply H. now left.
  - f_equal. apply IH. intros Hin. apply H. now right.
Qed.

Lemma length_remove_first (x : string) (l : list string) :
  In x l -> S (List.length (remove_first x l)) = List.length l.
Proof.
  induction l as [|y l IH]; simpl; [contradiction|].
  destruct (String.eqb_spec y x) as [E|Hyx]; [reflexivity|].
  intros [E|Hin]; [contradiction|].
  simpl. f_equal. now apply IH.
Qed.

(** ** The loop body and the registry *)

Lemma replay_all_app (name : string) (n : nat) (t1 t2 : list Emission) :
  replay_all name n (t1 ++ t2) = replay_all name (replay_all name n t1) t2.
Proof. unfold replay_all. apply fold_left_app. Qed.

Lemma occurrences_register (name x : string) (l : list string) :
  occurrences name (l ++ [x]) =
  if String.eqb x name then S (occurrences name l) else occurrences name l.
Proof.
  rewrite occurrences_app. unfold occurrences at 2. simpl.
  destruct (String.eqb_spec x name) as [->|Hne].
  - destruct (string_dec name name); [lia|contradiction].
  - destruct (string_dec x name); [contradiction|lia].
Qed.

(** Each container changes the number of occurrences of a name as the
    value it sends says. *)
Lemma status_body_replay (cfg : Config) (pod : corev1.Pod.t)
    (c : corev1.ContainerStatus.t) (l : list string) (name : string) :
  let r := status_body cfg pod c l in
  occurrences name (fst r) = replay_all name (occurrences name l) (emitted r).
Proof.
  unfold status_body.
  destruct (skipped cfg _); [reflexivity|].
  destruct (Match _ _).
  - unfold emitted, replay_all, replay, about, target_of. cbn [fst snd fold_left Target.Pod].
    rewrite occurrences_register.
    now destruct (String.eqb _ name).
  - destruct (has_ALL _).
    + destruct (Z.eqb _ _); [|reflexivity].
      unfold emitted, replay_all, replay, about, target_of. cbn [fst snd fold_left Target.Pod].
      rewrite occurrences_register.
      now destruct (String.eqb _ name).
    + unfold emitted, replay_all, replay, about, target_of. cbn [fst snd fold_left Target.Pod].
      rewrite deregister_spec, occurrences_remove_first.
      now destruct (String.eqb _ name).
Qed.

Lemma container_body_replay (cfg : Config) (pod : corev1.Pod.t)
    (c : corev1.Container.t) (l : list string) (name : string) :
  let r := container_body cfg pod c l in
  occurrences name (fst r) = replay_all name (occurrences name l) (emitted r).
Proof.
  unfold container_body.
  destruct (skipped cfg _); [reflexivity|].
  unfold emitted, replay_all, replay, about, target_of. cbn [fst snd fold_left Target.Pod].
  rewrite deregister_spec, occurrences_remove_first.
  now destruct (String.eqb _ name).
Qed.

(** A value is only sent for a container that passed both guards. *)
Lemma status_body_emits (cfg : Config) (pod : corev1.Pod.t)
    (c : corev1.ContainerStatus.t) (l : list string) (e : Emission) :
  snd (status_body cfg pod c l) = Some e ->
  skipped cfg (corev1.ContainerStatus.Name c) = false /\
  snd e = target_of pod (corev1.ContainerStatus.Name c).
Proof.
  unfold status_body.
  destruct (skipped cfg _); [discriminate|].
  destruct (Match _ _); [|destruct (has_ALL _); [destruct (Z.eqb _ _)|]];
    cbn; try discriminate; intros [= <-]; now split.
Qed.

Lemma container_body_emits (cfg : Config) (pod : corev1.Pod.t)
    (c : corev1.Container.t) (l : list string) (e : Emission) :
  snd (container_body cfg pod c l) = Some e ->
  skipped cfg (corev1.Container.Name c) = false /\
  e = (removed, target_of pod (corev1.Container.Name c)).
Proof.
  unfold container_body.
  destruct (skipped cfg _); [discriminate|].
  cbn. intros [= <-]. now split.
Qed.

(** Under the wildcard the status loop sends on [added] only. *)
Lemma status_body_wildcard (cfg : Config) (pod : corev1.Pod.t)
    (c : corev1.ContainerStatus.t) (l : list string) (e : Emission) :
  has_ALL (containerState cfg) = true ->
  snd (status_body cfg pod c l) = Some e -> fst e = added.
Proof.
  intros Hall. unfold status_body. rewrite Hall.
  destruct (skipped cfg _); [discriminate|].
  destruct (Match _ _); [|destruct (Z.eqb _ _)];
    cbn; try discriminate; now intros [= <-].
Qed.

Lemma skipped_excluded (cfg : Config) (exclude : Regexp) (name : string) :
  containerExcludeFilter cfg = Some exclude ->
  exclude name = true -> skipped cfg name = true.
Proof.
  intros Hex Hm. unfold skipped. rewrite Hex, Hm.
  now destruct (negb _).
Qed.

(** ** The transition system against the loop run to completion *)

Section Runs.

Variable cfg : Config.

Lemma moved_moved (s : State) l1 c1 m1 l2 c2 m2 :
  moved (moved s l1 c1 m1) l2 c2 m2 = moved s l2 c2 (m1 ++ m2).
Proof. unfold moved. cbn. now rewrite app_assoc. Qed.

Lemma step_receive (s : State) (l : list string) (e : Emission) (k : Resume)
    (done : list Emission) :
  step cfg (moved s l (AtSend e k) done) Receive =
  Some (moved s (fst (resume cfg k l)) (snd (resume cfg k l)) (done ++ [e])).
Proof.
  unfold step, moved. cbn. destruct (resume cfg k l). cbn.
  now rewrite app_assoc.
Qed.

Lemma exec_app (s : State) (sch1 sch2 : list Action) :
  exec cfg s (sch1 ++ sch2) =
  match exec cfg s sch1 with
  | Some s1 => exec cfg s1 sch2
  | None => None
  end.
Proof.
  revert s. induction sch1 as [|a sch1 IH]; intros s; simpl; [reflexivity|].
  destruct (step cfg s a); [apply IH|reflexivity].
Qed.

(** Taking every value the status loop sends brings the goroutine back to
    the [select], with the registry and the values of [all_statuses]. *)
Lemma range_statuses_drained (pod : corev1.Pod.t)
    (statuses : list corev1.ContainerStatus.t) (s : State) (l : list string)
    (done : list Emission) :
  let r := range_statuses cfg pod statuses l in
  let b := all_statuses cfg pod statuses l in
  exec cfg (moved s (fst r) (snd r) done)
       (repeat Receive (List.length (snd b)))
  = Some (moved s (fst b) AtSelect (done ++ snd b)).
Proof.
  revert s l done. induction statuses as [|c rest IH]; intros s l done; simpl.
  - now rewrite app_nil_r.
  - destruct (status_body cfg pod c l) as [l1 [e|]] eqn:Hb;
      specialize (IH s l1); cbn [fst snd emitted];
      destruct (all_statuses cfg pod rest l1) as [l2 out] eqn:Ha;
      cbn [fst snd] in IH.
    + cbn [fst snd app List.length repeat exec].
      rewrite step_receive. cbn [resume].
      rewrite (IH (done ++ [e])). now rewrite <- app_assoc.
    + apply IH.
Qed.

Lemma range_containers_drained (pod : corev1.Pod.t)
    (containers : list corev1.Container.t) (s : State) (l : list string)
    (done : list Emission) :
  let r := range_containers cfg pod containers l in
  let b := all_containers cfg pod containers l in
  exec cfg (moved s (fst r) (snd r) done)
       (repeat Receive (List.length (snd b)))
  = Some (moved s (fst b) AtSelect (done ++ snd b)).
Proof.
  revert s l done. induction containers as [|c rest IH]; intros s l done; simpl.
  - now rewrite app_nil_r.
  - destruct (container_body cfg pod c l) as [l1 [e|]] eqn:Hb;
      specialize (IH s l1); cbn [fst snd emitted];
      destruct (all_containers cfg pod rest l1) as [l2 out] eqn:Ha;
      cbn [fst snd] in IH.
    + cbn [fst snd app List.length repeat exec].
      rewrite step_receive. cbn [resume].
      rewrite (IH (done ++ [e])). now rewrite <- app_assoc.
    + apply IH.
Qed.

End Runs.

Section Schedules.

Variable cfg : Config.

(** One event whose values are all taken. *)
Lemma handle_run (s : State) (e : watch.Event) :
  pc s = AtSelect ->
  has_object e = true ->
  let h := handle cfg e (podNameList s) in
  exec cfg s (Result e :: repeat Receive (List.length (snd h)))
  = Some (moved s (fst h) AtSelect (snd h)).
Proof.
  intros Hpc Hobj. destruct s as [l c d n a r tr]. cbn in Hpc. subst c.
  cbn [exec step pc podNameList ctxDone watcherStops addedClosed
       removedClosed sent].
  unfold handle, on_result, has_object in *.
  destruct (watch.Object_ e) as [[pod|]|]; [| |discriminate].
  - destruct (negb (podFilter cfg (corev1.Pod.Name pod))).
    + cbn. unfold moved. cbn. now rewrite app_nil_r.
    + destruct (watch.Type_ e).
      1, 2:
        pose proof (range_statuses_drained cfg pod (statuses_of cfg pod)
                      (mkState l AtSelect d n a r tr) l []) as H;
        cbn zeta in H;
        destruct (range_statuses cfg pod (statuses_of cfg pod) l) as [l1 c1];
        unfold moved in H; cbn in H; rewrite app_nil_r in H; exact H.
      1:
        pose proof (range_containers_drained cfg pod (containers_of cfg pod)
                      (mkState l AtSelect d n a r tr) l []) as H;
        cbn zeta in H;
        destruct (range_containers cfg pod (containers_of cfg pod) l)
          as [l1 c1];
        unfold moved in H; cbn in H; rewrite app_nil_r in H; exact H.
      all: cbn; unfold moved; cbn; now rewrite app_nil_r.
  - cbn. unfold moved. cbn. now rewrite app_nil_r.
Qed.

(** The cooperative schedule runs, and computes [handle_all]. *)
Lemma cooperative_run (events : list watch.Event) (s : State) :
  pc s = AtSelect ->
  let h := handle_all cfg events (podNameList s) in
  exec cfg s (cooperative cfg events (podNameList s))
  = Some (moved s (fst h)
            (if forallb has_object events then AtSelect else Returned)
            (snd h)).
Proof.
  revert s. induction events as [|e rest IH]; intros s Hpc.
  - destruct s. cbn in *. subst. unfold moved. cbn. now rewrite app_nil_r.
  - cbn [cooperative handle_all forallb].
    pose proof (handle_run s e Hpc) as Hrun. unfold has_object in *.
    destruct (watch.Object_ e) as [o|] eqn:Ho.
    + specialize (Hrun eq_refl). cbn zeta in Hrun.
      destruct (handle cfg e (podNameList s)) as [l out].
      cbn [fst snd] in Hrun.
      change (Result e :: repeat Receive (List.length out)
                ++ cooperative cfg rest l)
        with ((Result e :: repeat Receive (List.length out))
                ++ cooperative cfg rest l).
      rewrite exec_app, Hrun.
      specialize (IH (moved s l AtSelect out) eq_refl).
      cbn [podNameList moved] in IH. rewrite IH.
      destruct (handle_all cfg rest l) as [l' out'].
      cbn [fst snd andb]. now rewrite moved_moved.
    + destruct s as [l c d n a r tr]. cbn in Hpc. subst c.
      cbn. unfold on_result. rewrite Ho. cbn. unfold moved. cbn.
      now rewrite app_nil_r.
Qed.

(** Invariants of the transition system: what every action permitted by
    [allowed] preserves holds after every schedule of such actions. *)
Lemma exec_invariant (Inv : State -> Prop) (allowed : Action -> Prop) :
  (forall s a s', Inv s -> allowed a -> step cfg s a = Some s' -> Inv s') ->
  forall schedule s s',
    Forall allowed schedule -> Inv s ->
    exec cfg s schedule = Some s' -> Inv s'.
Proof.
  intros Hstep schedule.
  induction schedule as [|a rest IH]; intros s s' Hall Hinv; simpl.
  - now intros [= <-].
  - inversion Hall as [|? ? Ha Hrest]; subst.
    destruct (step cfg s a) as [s1|] eqn:Hs; [|discriminate].
    apply (IH s1 s' Hrest). eapply Hstep; eauto.
Qed.

Lemma Forall_any (schedule : list Action) : Forall (fun _ => True) schedule.
Proof. apply Forall_forall. intros; exact I. Qed.

(** *** The registry against the values sent *)

Lemma range_statuses_replay (pod : corev1.Pod.t)
    (statuses : list corev1.ContainerStatus.t) (l : list string)
    (name : string) :
  let r := range_statuses cfg pod statuses l in
  occurrences name (fst r)
  = replay_all name (occurrences name l) (pending (snd r)).
Proof.
  revert l. induction statuses as [|c rest IH]; intros l; simpl;
    [reflexivity|].
  pose proof (status_body_replay cfg pod c l name) as Hb. cbn zeta in Hb.
  destruct (status_body cfg pod c l) as [l1 [e|]]; cbn in *.
  - exact Hb.
  - rewrite IH. now rewrite Hb.
Qed.

Lemma range_containers_replay (pod : corev1.Pod.t)
    (containers : list corev1.Container.t) (l : list string)
    (name : string) :
  let r := range_containers cfg pod containers l in
  occurrences name (fst r)
  = replay_all name (occurrences name l) (pending (snd r)).
Proof.
  revert l. induction containers as [|c rest IH]; intros l; simpl;
    [reflexivity|].
  pose proof (container_body_replay cfg pod c l name) as Hb. cbn zeta in Hb.
  destruct (container_body cfg pod c l) as [l1 [e|]]; cbn in *.
  - exact Hb.
  - rewrite IH. now rewrite Hb.
Qed.

Lemma on_result_replay (e : watch.Event) (l : list string) (name : string) :
  let r := on_result cfg e l in
  occurrences name (fst r)
  = replay_all name (occurrences name l) (pending (snd r)).
Proof.
  unfold on_result.
  destruct (watch.Object_ e) as [[pod|]|]; try reflexivity.
  destruct (negb _); [reflexivity|].
  destruct (watch.Type_ e); try reflexivity.
  1, 2: apply range_statuses_replay.
  apply range_containers_replay.
Qed.

Lemma resume_replay (k : Resume) (l : list string) (name : string) :
  let r := resume cfg k l in
  occurrences name (fst r)
  = replay_all name (occurrences name l) (pending (snd r)).
Proof.
  destruct k; [apply range_statuses_replay|apply range_containers_replay].
Qed.

Lemma registry_replays_step (s : State) (a : Action) (s' : State) :
  registry_replays s -> step cfg s a = Some s' -> registry_replays s'.
Proof.
  intros Hinv Hs name. specialize (Hinv name).
  destruct s as [l c d n ac rc tr]. cbn in Hinv.
  destruct a as [|e| |]; cbn in Hs.
  - injection Hs as <-. exact Hinv.
  - destruct c; try discriminate.
    pose proof (on_result_replay e l name) as Hr. cbn zeta in Hr.
    destruct (on_result cfg e l) as [l1 c1]. injection Hs as <-.
    cbn in *. rewrite app_nil_r in Hinv.
    now rewrite replay_all_app, <- Hinv.
  - destruct c; try discriminate. destruct d; [|discriminate].
    injection Hs as <-. exact Hinv.
  - destruct c as [|e k|]; try discriminate.
    pose proof (resume_replay k l name) as Hr. cbn zeta in Hr.
    destruct (resume cfg k l) as [l1 c1]. injection Hs as <-.
    cbn in *. now rewrite replay_all_app, <- Hinv.
Qed.

End Schedules.

(** ** The registry (lines 95-113 and 131-137) *)

Lemma most_recent_snoc (name : string) (trace : list Emission) (e : Emission) :
  most_recent name (trace ++ [e]) =
  if about name e then Some (fst e) else most_recent name trace.
Proof.
  unfold most_recent. rewrite rev_app_distr. simpl.
  now destruct (about name e).
Qed.

Lemma replay_all_snoc (name : string) (n : nat) (trace : list Emission)
    (e : Emission) :
  replay_all name n (trace ++ [e]) = replay name (replay_all name n trace) e.
Proof. now rewrite replay_all_app. Qed.

(** After an [added] for [name] that no [removed] for [name] follows, the
    replayed count is positive. *)
Lemma most_recent_added_replay (name : string) (n : nat)
    (trace : list Emission) :
  most_recent name trace = Some added -> 0 < replay_all name n trace.
Proof.
  induction trace as [|e trace IH] using rev_ind.
  - discriminate.
  - rewrite most_recent_snoc, replay_all_snoc. unfold replay.
    destruct (about name e).
    + intros [= ->]. lia.
    + exact IH.
Qed.

(** C1, counterexample.  With the classifier matching running containers
    only, two events that report [c1] of [p1] running leave [p1] twice in
    the registry (line 96 appends without looking), so the registry is not
    duplicate free. *)
Lemma registry_is_a_set_fails :
  ~ registry_is_a_set (Sample.cfg false)
      (cooperative (Sample.cfg false) SampleRuns.running_twice []).
Proof.
  intros H.
  specialize (H SampleRuns.after_running_twice eq_refl "p1").
  destruct H as [H _]. vm_compute in H. lia.
Qed.

(** C1, as the code has it.  In every state the goroutine can reach, under
    any schedule, the number of occurrences of a parent name in
    [podNameList] is the number obtained by replaying the notifications
    for that name in order, an [added] adding one occurrence and a
    [removed] taking one away when there is one (the value the goroutine is
    blocked sending counts as the latest notification); hence the name is
    a member whenever the most recent notification for it is an [added]. *)
Theorem registry_counts_notifications (cfg : Config) (schedule : list Action)
    (s : State) :
  exec cfg started schedule = Some s ->
  forall name,
    occurrences name (podNameList s)
    = replay_all name 0 (sent s ++ pending (pc s)) /\
    (most_recent name (sent s ++ pending (pc s)) = Some added ->
     In name (podNameList s)).
Proof.
  intros Hrun name.
  assert (Hinv : registry_replays s).
  { apply (exec_invariant cfg registry_replays (fun _ => True))
      with (schedule := schedule) (s := started).
    - intros s0 a s1 H0 _ Hs. exact (registry_replays_step cfg s0 a s1 H0 Hs).
    - apply Forall_any.
    - intros n. reflexivity.
    - exact Hrun. }
  split; [apply Hinv|].
  intros Hlast. apply occurrences_member. rewrite Hinv.
  now apply most_recent_added_replay.
Qed.

Lemma registry_counts_notifications_witness :
  occurrences "p1" (podNameList SampleRuns.after_running_twice)
  = replay_all "p1" 0
      (sent SampleRuns.after_running_twice
       ++ pending (pc SampleRuns.after_running_twice)) /\
  (most_recent "p1"
     (sent SampleRuns.after_running_twice
      ++ pending (pc SampleRuns.after_running_twice)) = Some added ->
   In "p1" (podNameList SampleRuns.after_running_twice)).
Proof.
  apply (registry_counts_notifications (Sample.cfg false)
           (cooperative (Sample.cfg false) SampleRuns.running_twice [])
           SampleRuns.after_running_twice).
  reflexivity.
Defined.

(** ** Leaving the loop (lines 59-63 and 147-151) *)

Lemma running_untouched_step (cfg : Config) (s : State) (a : Action)
    (s' : State) :
  running_untouched s -> step cfg s a = Some s' -> running_untouched s'.
Proof.
  unfold running_untouched. intros Hinv Hs.
  destruct s as [l c d n ac rc tr]. cbn in *.
  destruct a as [|e| |]; cbn in Hs.
  - injection Hs as <-. exact Hinv.
  - destruct c; try discriminate. destruct (on_result cfg e l).
    injection Hs as <-. cbn. intros _. now apply Hinv.
  - destruct c; try discriminate. destruct d; [|discriminate].
    injection Hs as <-. cbn. intros H. now contradiction H.
  - destruct c as [|e k|]; try discriminate. destruct (resume cfg k l).
    injection Hs as <-. cbn. intros _. now apply Hinv.
Qed.

Lemma reachable_running_untouched (cfg : Config) (schedule : list Action)
    (s : State) :
  exec cfg started schedule = Some s -> running_untouched s.
Proof.
  intros Hrun.
  apply (exec_invariant cfg running_untouched (fun _ => True))
    with (schedule := schedule) (s := started).
  - intros s0 a s1 H0 _ Hs. exact (running_untouched_step cfg s0 a s1 H0 Hs).
  - apply Forall_any.
  - intros _. cbn. auto.
  - exact Hrun.
Qed.

(** Once the goroutine has returned only [ctx] can still change. *)
Lemma returned_is_final (cfg : Config) (later : list Action) (s s' : State) :
  pc s = Returned -> exec cfg s later = Some s' ->
  pc s' = Returned /\ watcherStops s' = watcherStops s /\
  addedClosed s' = addedClosed s /\ removedClosed s' = removedClosed s /\
  sent s' = sent s /\ podNameList s' = podNameList s.
Proof.
  revert s. induction later as [|a later IH]; intros s Hpc; simpl.
  - intros [= <-]. repeat split; auto.
  - destruct s as [l c d n ac rc tr]. cbn in Hpc. subst c.
    destruct a; cbn; try discriminate.
    intros Hrun. apply IH in Hrun; [|reflexivity]. exact Hrun.
Qed.

(** C2, the code at the failing input.  An event without an object, of any
    type, taken by the freshly started goroutine makes it return at line 62
    with both channels open and the watch not stopped, and whatever
    happens later leaves them open: the two [close] calls of lines 149-150
    are not on this path. *)
Theorem nil_object_returns_without_closing (cfg : Config)
    (ty : watch.EventType) (later : list Action) :
  exec cfg started [Result (watch.mk ty None)]
  = Some SampleRuns.left_at_line_62 /\
  match exec cfg SampleRuns.left_at_line_62 later with
  | Some s =>
      pc s = Returned /\ addedClosed s = false /\ removedClosed s = false /\
      watcherStops s = 0 /\ sent s = []
  | None => True
  end.
Proof.
  split; [reflexivity|].
  destruct (exec cfg SampleRuns.left_at_line_62 later) as [s|] eqn:Hrun;
    [|exact I].
  apply returned_is_final in Hrun; [|reflexivity].
  cbn in Hrun. tauto.
Qed.

(** C8, counterexample.  [c1] of [p1] is reported running, the goroutine
    blocks at [added <- t] on line 97, and [ctx] is cancelled: the
    [ctx.Done()] case is not among the things the goroutine can do there,
    so it neither stops the watch nor closes a channel. *)
Lemma cancellation_stops_anywhere_fails :
  ~ cancellation_stops_anywhere (Sample.cfg false)
      [Result SampleRuns.c1_runs].
Proof.
  intros H.
  destruct (H SampleRuns.sending_c1 eq_refl ltac:(discriminate))
    as [s' [Hs _]].
  discriminate Hs.
Qed.

(** The same run, continued: the value is taken after the cancellation and
    the goroutine is back at the [select] with nothing stopped or closed. *)
Example sent_after_cancellation :
  exec (Sample.cfg false) started
       [Result SampleRuns.c1_runs; Cancel; Receive]
  = Some (mkState ["p1"] AtSelect true 0 false false [(added, Sample.t11)])
  /\ exec (Sample.cfg false) started [Result SampleRuns.c1_runs; Cancel; Done]
     = None.
Proof. split; reflexivity. Qed.

(** C8, as the code has it.  The [ctx.Done()] case can be taken exactly
    when the goroutine waits at the [select] and [ctx] is cancelled.  In
    every run in which it is taken, the watch had not been stopped before,
    and from then on, whatever follows, the goroutine has returned, the
    watch has been stopped exactly once, both channels are closed and no
    value has been sent after the ones sent before. *)
Theorem cancellation_at_select (cfg : Config) (schedule : list Action)
    (s : State) :
  exec cfg started schedule = Some s ->
  (pc s = AtSelect /\ ctxDone s = true <-> step cfg s Done <> None) /\
  forall s' later s'',
    step cfg s Done = Some s' -> exec cfg s' later = Some s'' ->
    watcherStops s = 0 /\
    pc s'' = Returned /\ watcherStops s'' = 1 /\
    addedClosed s'' = true /\ removedClosed s'' = true /\
    sent s'' = sent s.
Proof.
  intros Hrun. pose proof (reachable_running_untouched cfg schedule s Hrun) as Hinv.
  unfold running_untouched in Hinv.
  destruct s as [l c d n ac rc tr]. cbn in *. split.
  - split.
    + intros [-> ->]. discriminate.
    + destruct c; cbn; intros H; try (exfalso; apply H; reflexivity).
      destruct d; [auto|exfalso; apply H; reflexivity].
  - intros s' later s'' Hs Hlater.
    destruct c; try discriminate. destruct d; [|discriminate].
    injection Hs as <-.
    destruct (Hinv ltac:(discriminate)) as [-> _].
    apply returned_is_final in Hlater; [|reflexivity]. cbn in Hlater.
    destruct Hlater as (? & ? & ? & ? & ? & ?). repeat split; assumption.
Qed.

Lemma cancellation_at_select_witness :
  (pc SampleRuns.cancelled_at_select = AtSelect /\
   ctxDone SampleRuns.cancelled_at_select = true
   <-> step (Sample.cfg false) SampleRuns.cancelled_at_select Done <> None) /\
  forall s' later s'',
    step (Sample.cfg false) SampleRuns.cancelled_at_select Done = Some s' ->
    exec (Sample.cfg false) s' later = Some s'' ->
    watcherStops SampleRuns.cancelled_at_select = 0 /\
    pc s'' = Returned /\ watcherStops s'' = 1 /\
    addedClosed s'' = true /\ removedClosed s'' = true /\
    sent s'' = sent SampleRuns.cancelled_at_select.
Proof.
  apply (cancellation_at_select (Sample.cfg false) [Cancel]
           SampleRuns.cancelled_at_select).
  reflexivity.
Defined.

(** ** The two guards (lines 83-88 and 124-129) *)

Section Guards.

Variable cfg : Config.

Lemma range_statuses_pending (pod : corev1.Pod.t)
    (statuses : list corev1.ContainerStatus.t) (l : list string)
    (e : Emission) :
  In e (pending (snd (range_statuses cfg pod statuses l))) ->
  skipped cfg (Target.Container (snd e)) = false.
Proof.
  revert l. induction statuses as [|c rest IH]; intros l; simpl;
    [contradiction|].
  pose proof (status_body_emits cfg pod c l) as Hb.
  destruct (status_body cfg pod c l) as [l1 [x|]]; cbn in *.
  - intros [<-|[]]. destruct (Hb x eq_refl) as [Hs ->]. exact Hs.
  - apply IH.
Qed.

Lemma range_containers_pending (pod : corev1.Pod.t)
    (containers : list corev1.Container.t) (l : list string)
    (e : Emission) :
  In e (pending (snd (range_containers cfg pod containers l))) ->
  skipped cfg (Target.Container (snd e)) = false.
Proof.
  revert l. induction containers as [|c rest IH]; intros l; simpl;
    [contradiction|].
  pose proof (container_body_emits cfg pod c l) as Hb.
  destruct (container_body cfg pod c l) as [l1 [x|]]; cbn in *.
  - intros [<-|[]]. destruct (Hb x eq_refl) as [Hs ->]. exact Hs.
  - apply IH.
Qed.

Lemma all_statuses_unskipped (pod : corev1.Pod.t)
    (statuses : list corev1.ContainerStatus.t) (l : list string)
    (e : Emission) :
  In e (snd (all_statuses cfg pod statuses l)) ->
  skipped cfg (Target.Container (snd e)) = false.
Proof.
  revert l. induction statuses as [|c rest IH]; intros l; simpl;
    [contradiction|].
  pose proof (status_body_emits cfg pod c l) as Hb. specialize (IH (fst (status_body cfg pod c l))).
  destruct (all_statuses cfg pod rest _) as [l2 out].
  unfold emitted. cbn [snd] in *. rewrite in_app_iff. intros [Hin|Hin].
  - destruct (snd (status_body cfg pod c l)) as [x|]; [|contradiction].
    destruct Hin as [<-|[]]. destruct (Hb x eq_refl) as [Hs ->]. exact Hs.
  - now apply IH.
Qed.

Lemma all_containers_unskipped (pod : corev1.Pod.t)
    (containers : list corev1.Container.t) (l : list string)
    (e : Emission) :
  In e (snd (all_containers cfg pod containers l)) ->
  skipped cfg (Target.Container (snd e)) = false.
Proof.
  revert l. induction containers as [|c rest IH]; intros l; simpl;
    [contradiction|].
  pose proof (container_body_emits cfg pod c l) as Hb. specialize (IH (fst (container_body cfg pod c l))).
  destruct (all_containers cfg pod rest _) as [l2 out].
  unfold emitted. cbn [snd] in *. rewrite in_app_iff. intros [Hin|Hin].
  - destruct (snd (container_body cfg pod c l)) as [x|]; [|contradiction].
    destruct Hin as [<-|[]]. destruct (Hb x eq_refl) as [Hs ->]. exact Hs.
  - now apply IH.
Qed.

Lemma handle_unskipped (ev : watch.Event) (l : list string) (e : Emission) :
  In e (snd (handle cfg ev l)) ->
  skipped cfg (Target.Container (snd e)) = false.
Proof.
  unfold handle.
  destruct (watch.Object_ ev) as [[pod|]|]; try contradiction.
  destruct (negb _); [contradiction|].
  destruct (watch.Type_ ev); try contradiction.
  1, 2: apply all_statuses_unskipped.
  apply all_containers_unskipped.
Qed.

Lemma sends_unskipped_step (s : State) (a : Action) (s' : State) :
  sends_unskipped cfg s -> step cfg s a = Some s' -> sends_unskipped cfg s'.
Proof.
  unfold sends_unskipped. intros Hinv Hs.
  destruct s as [l c d n ac rc tr]. cbn in Hinv.
  destruct a as [|ev| |]; cbn in Hs.
  - injection Hs as <-. exact Hinv.
  - destruct c; try discriminate.
    destruct (on_result cfg ev l) as [l1 c1] eqn:Hon.
    injection Hs as <-. cbn. intros e Hin.
    apply in_app_or in Hin. destruct Hin as [Hin|Hin].
    + apply Hinv. apply in_or_app. now left.
    + replace c1 with (snd (on_result cfg ev l)) in Hin by now rewrite Hon.
      revert Hin. unfold on_result.
      destruct (watch.Object_ ev) as [[pod|]|]; try contradiction.
      destruct (negb _); [contradiction|].
      destruct (watch.Type_ ev); try contradiction.
      1, 2: apply range_statuses_pending.
      apply range_containers_pending.
  - destruct c; try discriminate. destruct d; [|discriminate].
    injection Hs as <-. exact Hinv.
  - destruct c as [|x k|]; try discriminate.
    destruct (resume cfg k l) as [l1 c1] eqn:Hre.
    injection Hs as <-. cbn. intros e Hin.
    apply in_app_or in Hin. destruct Hin as [Hin|Hin].
    + now apply Hinv.
    + replace c1 with (snd (resume cfg k l)) in Hin by now rewrite Hre.
      revert Hin. destruct k; cbn [resume];
        [apply range_statuses_pending|apply range_containers_pending].
Qed.

Lemma unskipped_not_excluded (exclude : Regexp) (name : string) :
  containerExcludeFilter cfg = Some exclude ->
  skipped cfg name = false -> exclude name = false.
Proof.
  intros Hex. unfold skipped. rewrite Hex.
  now destruct (negb _).
Qed.

End Guards.

(** C7.  When the exclusion pattern is set and matches a container name,
    no value on either channel is for a container of that name, whatever
    the inclusion pattern says: neither among the values one event makes
    the loop send, be it [Added], [Modified] or [Deleted], nor among the
    values sent or being sent in any state the goroutine can reach. *)
Theorem exclusion_wins (cfg : Config) (exclude : Regexp) (name : string) :
  containerExcludeFilter cfg = Some exclude ->
  exclude name = true ->
  (forall ev l e, In e (snd (handle cfg ev l)) ->
                  Target.Container (snd e) <> name) /\
  (forall schedule s e,
      exec cfg started schedule = Some s ->
      In e (sent s ++ pending (pc s)) ->
      Target.Container (snd e) <> name).
Proof.
  intros Hex Hm. split.
  - intros ev l e Hin Heq. apply handle_unskipped in Hin.
    apply (unskipped_not_excluded cfg exclude) in Hin; [|exact Hex].
    rewrite Heq in Hin. congruence.
  - intros schedule s e Hrun Hin Heq.
    assert (Hinv : sends_unskipped cfg s).
    { apply (exec_invariant cfg (sends_unskipped cfg) (fun _ => True))
        with (schedule := schedule) (s := started).
      - intros s0 a s1 H0 _ Hs. exact (sends_unskipped_step cfg s0 a s1 H0 Hs).
      - apply Forall_any.
      - intros x [].
      - exact Hrun. }
    apply Hinv in Hin.
    apply (unskipped_not_excluded cfg exclude) in Hin; [|exact Hex].
    rewrite Heq in Hin. congruence.
Qed.

Lemma exclusion_wins_witness :
  (forall ev l e, In e (snd (handle Sample.cfg_exclude ev l)) ->
                  Target.Container (snd e) <> "c2") /\
  (forall schedule s e,
      exec Sample.cfg_exclude started schedule = Some s ->
      In e (sent s ++ pending (pc s)) ->
      Target.Container (snd e) <> "c2").
Proof.
  apply (exclusion_wins Sample.cfg_exclude (Sample.only "c2") "c2");
    reflexivity.
Defined.

(** The excluded container of a pod whose two containers run is passed
    over, on the status path and on the [Deleted] path. *)
Example exclusion_wins_on_both_paths :
  handle Sample.cfg_exclude SampleRuns.both_run []
  = (["p1"], [(added, Sample.t11)]) /\
  handle Sample.cfg_exclude
    (Sample.event watch.Deleted
       (Sample.p1 [Sample.status "c1" Sample.running;
                   Sample.status "c2" Sample.running])) ["p1"]
  = ([], [(removed, Sample.t11)]).
Proof. split; reflexivity. Qed.

(** ** The wildcard (lines 99-103) *)

Section Wildcard.

Variable cfg : Config.
Hypothesis wildcard : has_ALL (containerState cfg) = true.

Lemma range_statuses_wildcard (pod : corev1.Pod.t)
    (statuses : list corev1.ContainerStatus.t) (l : list string) :
  let r := range_statuses cfg pod statuses l in
  outside_deleted (snd r) /\
  forall e, In e (pending (snd r)) -> fst e = added.
Proof.
  revert l. induction statuses as [|c rest IH]; intros l; simpl.
  - split; [exact I|contradiction].
  - pose proof (status_body_wildcard cfg pod c l) as Hb.
    destruct (status_body cfg pod c l) as [l1 [x|]]; cbn in *.
    + split; [exact I|]. intros e [<-|[]]. now apply Hb.
    + apply IH.
Qed.

Lemma all_statuses_wildcard (pod : corev1.Pod.t)
    (statuses : list corev1.ContainerStatus.t) (l : list string)
    (e : Emission) :
  In e (snd (all_statuses cfg pod statuses l)) -> fst e = added.
Proof.
  revert l. induction statuses as [|c rest IH]; intros l; simpl;
    [contradiction|].
  pose proof (status_body_wildcard cfg pod c l) as Hb.
  specialize (IH (fst (status_body cfg pod c l))).
  destruct (all_statuses cfg pod rest _) as [l2 out].
  unfold emitted. cbn [snd] in *. rewrite in_app_iff. intros [Hin|Hin].
  - destruct (snd (status_body cfg pod c l)) as [x|]; [|contradiction].
    destruct Hin as [<-|[]]. now apply Hb.
  - now apply IH.
Qed.

Lemma sends_added_only_step (s : State) (a : Action) (s' : State) :
  sends_added_only s -> not_deleted a -> step cfg s a = Some s' ->
  sends_added_only s'.
Proof.
  unfold sends_added_only. intros [Hout Hinv] Hok Hs.
  destruct s as [l c d n ac rc tr]. cbn in Hout, Hinv.
  destruct a as [|ev| |]; cbn in Hs, Hok.
  - injection Hs as <-. now split.
  - destruct c; try discriminate.
    assert (Hon : outside_deleted (snd (on_result cfg ev l)) /\
                  forall e, In e (pending (snd (on_result cfg ev l))) ->
                            fst e = added).
    { unfold on_result.
      destruct (watch.Object_ ev) as [[pod|]|];
        try (split; [exact I|contradiction]).
      destruct (negb _); [split; [exact I|contradiction]|].
      destruct (watch.Type_ ev); try discriminate;
        try (split; [exact I|contradiction]);
        apply range_statuses_wildcard. }
    destruct (on_result cfg ev l) as [l1 c1]. injection Hs as <-.
    cbn in *. destruct Hon as [Ho Hp]. split; [exact Ho|].
    intros e Hin. apply in_app_or in Hin. destruct Hin as [Hin|Hin].
    + apply Hinv. apply in_or_app. now left.
    + now apply Hp.
  - destruct c; try discriminate. destruct d; [|discriminate].
    injection Hs as <-. cbn. split; [exact I|exact Hinv].
  - destruct c as [|x k|]; try discriminate.
    destruct k as [pod rest|pod rest]; [|contradiction].
    pose proof (range_statuses_wildcard pod rest l) as Hr.
    cbn [resume] in Hs.
    destruct (range_statuses cfg pod rest l) as [l1 c1]. injection Hs as <-.
    cbn in *. destruct Hr as [Ho Hp]. split; [exact Ho|].
    intros e Hin. apply in_app_or in Hin. destruct Hin as [Hin|Hin].
    + now apply Hinv.
    + now apply Hp.
Qed.

End Wildcard.

(** C9.  With the wildcard among the states of the classifier, a value
    sent on [removed] while an event is handled means the event is a
    [Deleted] one; and in a run in which no [Deleted] event arrives,
    nothing is ever sent, or about to be sent, on [removed]. *)
Theorem wildcard_removes_on_delete_only (cfg : Config) :
  has_ALL (containerState cfg) = true ->
  (forall ev l t, In (removed, t) (snd (handle cfg ev l)) ->
                  watch.Type_ ev = watch.Deleted) /\
  (forall schedule s t,
      Forall not_deleted schedule ->
      exec cfg started schedule = Some s ->
      ~ In (removed, t) (sent s ++ pending (pc s))).
Proof.
  intros Hall. split.
  - intros ev l t. unfold handle.
    destruct (watch.Object_ ev) as [[pod|]|]; try contradiction.
    destruct (negb _); [contradiction|].
    destruct (watch.Type_ ev); try contradiction; try reflexivity;
      intros Hin; apply (all_statuses_wildcard cfg Hall) in Hin;
      discriminate Hin.
  - intros schedule s t Hok Hrun Hin.
    assert (Hinv : sends_added_only s).
    { apply (exec_invariant cfg sends_added_only not_deleted)
        with (schedule := schedule) (s := started).
      - intros s0 a s1. apply sends_added_only_step. exact Hall.
      - exact Hok.
      - split; [exact I|intros x []].
      - exact Hrun. }
    destruct Hinv as [_ Hinv]. apply Hinv in Hin. discriminate Hin.
Qed.

Lemma wildcard_removes_on_delete_only_witness :
  (forall ev l t, In (removed, t) (snd (handle (Sample.cfg true) ev l)) ->
                  watch.Type_ ev = watch.Deleted) /\
  (forall schedule s t,
      Forall not_deleted schedule ->
      exec (Sample.cfg true) started schedule = Some s ->
      ~ In (removed, t) (sent s ++ pending (pc s))).
Proof.
  apply (wildcard_removes_on_delete_only (Sample.cfg true)).
  reflexivity.
Defined.

(** Under the wildcard a container that stops running is not reported on
    [removed]; the deletion of its pod is. *)
Example wildcard_run :
  handle_all (Sample.cfg true)
    [Sample.event watch.Added (Sample.p1 [Sample.status "c1" Sample.running]);
     Sample.event watch.Modified
       (Sample.p1 [Sample.status "c1" Sample.terminated]);
     Sample.event watch.Deleted
       (Sample.p1 [Sample.status "c1" Sample.terminated])] []
  = ([], [(added, Sample.t11); (removed, Sample.t11)]).
Proof. reflexivity. Qed.

(** ** One container within its event *)

Lemma target_eqb_refl (t : Target.t) : Target.eqb t t = true.
Proof. unfold Target.eqb. now rewrite !String.eqb_refl. Qed.

Lemma target_of_eqb (pod : corev1.Pod.t) (n m : string) :
  Target.eqb (target_of pod n) (target_of pod m) = true -> n = m.
Proof.
  unfold Target.eqb, target_of. cbn. rewrite !String.eqb_refl. cbn.
  apply String.eqb_eq.
Qed.

Lemma sent_on_app (ch : Chan) (t : Target.t) (a b : list Emission) :
  sent_on ch t (a ++ b) = sent_on ch t a + sent_on ch t b.
Proof. unfold sent_on. now rewrite filter_app, length_app. Qed.

Section Child.

Variable cfg : Config.
Variable pod : corev1.Pod.t.

Lemma all_statuses_app (pre post : list corev1.ContainerStatus.t)
    (l : list string) :
  all_statuses cfg pod (pre ++ post) l =
  (fst (all_statuses cfg pod post (fst (all_statuses cfg pod pre l))),
   snd (all_statuses cfg pod pre l)
   ++ snd (all_statuses cfg pod post (fst (all_statuses cfg pod pre l)))).
Proof.
  revert l. induction pre as [|c pre IH]; intros l; simpl.
  - now destruct (all_statuses cfg pod post l).
  - rewrite IH.
    destruct (all_statuses cfg pod pre (fst (status_body cfg pod c l)))
      as [l1 o1].
    cbn. now rewrite app_assoc.
Qed.

(** The statuses of other names send nothing for the target of [name]. *)
Lemma sent_on_others (ch : Chan) (name : string)
    (statuses : list corev1.ContainerStatus.t) (l : list string) :
  (forall c', In c' statuses -> corev1.ContainerStatus.Name c' <> name) ->
  sent_on ch (target_of pod name) (snd (all_statuses cfg pod statuses l)) = 0.
Proof.
  revert l. induction statuses as [|c rest IH]; intros l Hne; simpl;
    [reflexivity|].
  pose proof (status_body_emits cfg pod c l) as Hb.
  specialize (IH (fst (status_body cfg pod c l))
                 (fun c' H => Hne c' (or_intror H))).
  destruct (all_statuses cfg pod rest _) as [l2 out].
  cbn [snd] in *. rewrite sent_on_app, IH, Nat.add_0_r.
  unfold emitted. destruct (snd (status_body cfg pod c l)) as [x|];
    [|reflexivity].
  destruct (Hb x eq_refl) as [_ Hx]. unfold sent_on. cbn. rewrite Hx.
  destruct (Target.eqb _ _) eqn:E; [|now rewrite andb_false_r].
  apply target_of_eqb in E. exfalso. apply (Hne c); [now left|exact E].
Qed.

(** What an [Added] or [Modified] event sends for a container whose
    name no other status carries is what the loop body sends when it
    reaches that container. *)
Lemma sent_on_child (ty : watch.EventType)
    (pre : list corev1.ContainerStatus.t) (c : corev1.ContainerStatus.t)
    (post : list corev1.ContainerStatus.t) (l : list string) (ch : Chan) :
  is_upsert ty = true ->
  podFilter cfg (corev1.Pod.Name pod) = true ->
  statuses_of cfg pod = pre ++ c :: post ->
  sole_name c (pre ++ post) ->
  let t := target_of pod (corev1.ContainerStatus.Name c) in
  sent_on ch t
    (snd (handle cfg (watch.mk ty (Some (watch.PodObject pod))) l))
  = sent_on ch t
      (emitted (status_body cfg pod c (fst (all_statuses cfg pod pre l)))).
Proof.
  intros Hty Hpod Hsts Hsole t. unfold handle. cbn [watch.Object_ watch.Type_].
  rewrite Hpod. cbn [negb].
  assert (Hgoal :
    sent_on ch t (snd (all_statuses cfg pod (statuses_of cfg pod) l))
    = sent_on ch t
        (emitted (status_body cfg pod c (fst (all_statuses cfg pod pre l))))).
  { rewrite Hsts, all_statuses_app. cbn [snd fst all_statuses].
    set (before := fst (all_statuses cfg pod pre l)).
    destruct (all_statuses cfg pod post (fst (status_body cfg pod c before)))
      as [l2 out] eqn:Hpost.
    cbn [snd]. rewrite !sent_on_app. unfold t.
    rewrite sent_on_others.
    - replace out with
        (snd (all_statuses cfg pod post
                (fst (status_body cfg pod c before))))
        by now rewrite Hpost.
      rewrite sent_on_others; [lia|].
      intros c' Hin. apply Hsole. apply in_or_app. now right.
    - intros c' Hin. apply Hsole. apply in_or_app. now left. }
  destruct ty; try discriminate; exact Hgoal.
Qed.

End Child.

(** ** A container whose state matches (lines 95-97) *)

(** C3.  Let an [Added] or [Modified] event for a pod that passes the pod
    filter list a container [c] that passes the two guards and whose state
    the classifier matches, no other listed status carrying its name.
    Whatever the registry held when the event arrived, and so whatever the
    container's state was in earlier events, the loop body reached at [c]
    appends the pod name and sends the target of [c] on [added]: the pod
    name is in the registry right after, and over the whole event exactly
    one [added] and no [removed] is sent for that target. *)
Theorem added_on_match (cfg : Config) (pod : corev1.Pod.t)
    (ty : watch.EventType) (pre : list corev1.ContainerStatus.t)
    (c : corev1.ContainerStatus.t) (post : list corev1.ContainerStatus.t)
    (l : list string) :
  is_upsert ty = true ->
  podFilter cfg (corev1.Pod.Name pod) = true ->
  statuses_of cfg pod = pre ++ c :: post ->
  sole_name c (pre ++ post) ->
  skipped cfg (corev1.ContainerStatus.Name c) = false ->
  Match (containerState cfg) (corev1.ContainerStatus.State c) = true ->
  let t := target_of pod (corev1.ContainerStatus.Name c) in
  let before := fst (all_statuses cfg pod pre l) in
  let ev := watch.mk ty (Some (watch.PodObject pod)) in
  status_body cfg pod c before
  = (before ++ [corev1.Pod.Name pod], Some (added, t)) /\
  In (corev1.Pod.Name pod) (fst (status_body cfg pod c before)) /\
  sent_on added t (snd (handle cfg ev l)) = 1 /\
  sent_on removed t (snd (handle cfg ev l)) = 0.
Proof.
  intros Hty Hpod Hsts Hsole Hskip Hmatch t before ev.
  assert (Hbody : status_body cfg pod c before
                  = (before ++ [corev1.Pod.Name pod], Some (added, t))).
  { unfold status_body. now rewrite Hskip, Hmatch. }
  split; [exact Hbody|]. split.
  - rewrite Hbody. cbn. apply in_or_app. right. now left.
  - unfold ev, t.
    rewrite !(sent_on_child cfg pod ty pre c post l _ Hty Hpod Hsts Hsole).
    fold before. rewrite Hbody. unfold emitted, sent_on. cbn.
    now rewrite target_eqb_refl.
Qed.

Lemma added_on_match_witness :
  status_body (Sample.cfg false)
    (Sample.p1 [Sample.status "c1" Sample.running])
    (Sample.status "c1" Sample.running) []
  = ([] ++ ["p1"], Some (added, Sample.t11)) /\
  In "p1"
    (fst (status_body (Sample.cfg false)
            (Sample.p1 [Sample.status "c1" Sample.running])
            (Sample.status "c1" Sample.running) [])) /\
  sent_on added Sample.t11
    (snd (handle (Sample.cfg false)
            (Sample.event watch.Modified
               (Sample.p1 [Sample.status "c1" Sample.running])) [])) = 1 /\
  sent_on removed Sample.t11
    (snd (handle (Sample.cfg false)
            (Sample.event watch.Modified
               (Sample.p1 [Sample.status "c1" Sample.running])) [])) = 0.
Proof.
  apply (added_on_match (Sample.cfg false)
           (Sample.p1 [Sample.status "c1" Sample.running]) watch.Modified
           [] (Sample.status "c1" Sample.running) [] []);
    try reflexivity.
  intros c' [].
Defined.

(** The pod name appended for [c1] is taken out again when a later
    container of the same event does not match. *)
Example registered_then_deregistered :
  handle (Sample.cfg false)
    (Sample.event watch.Added
       (Sample.p1 [Sample.status "c1" Sample.running;
                   Sample.status "c2" Sample.waiting])) []
  = ([], [(added, Sample.t11); (removed, Sample.t12)]).
Proof. reflexivity. Qed.

(** ** A container whose state does not match (lines 98-114) *)

(** C4, counterexample.  [c1] of [p1] runs while [c2] waits; handling that
    event appends [p1] for [c1] and removes it again for [c2].  When the
    next event reports [c1] waiting, the classifier for running containers
    no longer matches it, the wildcard is off, a [removed] is sent, and the
    registry, already empty, loses nothing. *)
Lemma transition_removes_one_fails :
  ~ transition_removes_one (Sample.cfg false)
      [Sample.event watch.Added
         (Sample.p1 [Sample.status "c1" Sample.running;
                     Sample.status "c2" Sample.waiting])]
      (Sample.p1 [Sample.status "c1" Sample.waiting;
                  Sample.status "c2" Sample.waiting])
      [] (Sample.status "c1" Sample.waiting).
Proof.
  unfold transition_removes_one. intros [_ H]. vm_compute in H. discriminate H.
Qed.

(** C4, as the code has it.  Let an [Added] or [Modified] event for a pod
    that passes the pod filter list a container [c] that passes the two
    guards and whose state the classifier does not match, the wildcard
    being off and no other listed status carrying the name of [c].  The
    loop body reached at [c] removes the first occurrence of the pod name
    from the registry when there is one, leaves the registry as it is
    when there is none, and sends the target of [c] on [removed]; over the
    whole event exactly one [removed] and no [added] is sent for it. *)
Theorem removed_on_mismatch (cfg : Config) (pod : corev1.Pod.t)
    (ty : watch.EventType) (pre : list corev1.ContainerStatus.t)
    (c : corev1.ContainerStatus.t) (post : list corev1.ContainerStatus.t)
    (l : list string) :
  is_upsert ty = true ->
  podFilter cfg (corev1.Pod.Name pod) = true ->
  statuses_of cfg pod = pre ++ c :: post ->
  sole_name c (pre ++ post) ->
  skipped cfg (corev1.ContainerStatus.Name c) = false ->
  Match (containerState cfg) (corev1.ContainerStatus.State c) = false ->
  has_ALL (containerState cfg) = false ->
  let t := target_of pod (corev1.ContainerStatus.Name c) in
  let before := fst (all_statuses cfg pod pre l) in
  let ev := watch.mk ty (Some (watch.PodObject pod)) in
  status_body cfg pod c before
  = (remove_first (corev1.Pod.Name pod) before, Some (removed, t)) /\
  (In (corev1.Pod.Name pod) before ->
   S (occurrences (corev1.Pod.Name pod)
        (remove_first (corev1.Pod.Name pod) before))
   = occurrences (corev1.Pod.Name pod) before /\
   S (List.length (remove_first (corev1.Pod.Name pod) before))
   = List.length before) /\
  (~ In (corev1.Pod.Name pod) before ->
   remove_first (corev1.Pod.Name pod) before = before) /\
  sent_on removed t (snd (handle cfg ev l)) = 1 /\
  sent_on added t (snd (handle cfg ev l)) = 0.
Proof.
  intros Hty Hpod Hsts Hsole Hskip Hmatch Hall t before ev.
  assert (Hbody : status_body cfg pod c before
                  = (remove_first (corev1.Pod.Name pod) before,
                     Some (removed, t))).
  { unfold status_body. rewrite Hskip, Hmatch, Hall.
    now rewrite deregister_spec. }
  split; [exact Hbody|]. split; [|split].
  - intros Hin. split; [|now apply length_remove_first].
    rewrite occurrences_remove_first, String.eqb_refl.
    apply occurrences_member in Hin. lia.
  - apply remove_first_absent.
  - unfold ev, t.
    rewrite !(sent_on_child cfg pod ty pre c post l _ Hty Hpod Hsts Hsole).
    fold before. rewrite Hbody. unfold emitted, sent_on. cbn.
    now rewrite target_eqb_refl.
Qed.

Lemma removed_on_mismatch_witness :
  status_body (Sample.cfg false)
    (Sample.p1 [Sample.status "c1" Sample.terminated])
    (Sample.status "c1" Sample.terminated) ["p1"]
  = (remove_first "p1" ["p1"], Some (removed, Sample.t11)) /\
  (In "p1" ["p1"] ->
   S (occurrences "p1" (remove_first "p1" ["p1"])) = occurrences "p1" ["p1"] /\
   S (List.length (remove_first "p1" ["p1"])) = List.length ["p1"]) /\
  (~ In "p1" ["p1"] -> remove_first "p1" ["p1"] = ["p1"]) /\
  sent_on removed Sample.t11
    (snd (handle (Sample.cfg false)
            (Sample.event watch.Modified
               (Sample.p1 [Sample.status "c1" Sample.terminated]))
            ["p1"])) = 1 /\
  sent_on added Sample.t11
    (snd (handle (Sample.cfg false)
            (Sample.event watch.Modified
               (Sample.p1 [Sample.status "c1" Sample.terminated]))
            ["p1"])) = 0.
Proof.
  apply (removed_on_mismatch (Sample.cfg false)
           (Sample.p1 [Sample.status "c1" Sample.terminated]) watch.Modified
           [] (Sample.status "c1" Sample.terminated) [] ["p1"]);
    try reflexivity.
  intros c' [].
Defined.

(** C5.  Under the wildcard, the loop body reached at a container that
    passes the two guards and whose state the classifier does not match
    sends nothing and leaves the registry alone when the pod name is in the
    registry, and appends the pod name and sends the target on [added] when
    it is not.  Within an [Added] or [Modified] event for a pod that passes
    the pod filter, no other listed status carrying the container's name,
    the [added] values sent for the target over the whole event number
    none in the first case and one in the second, and no [removed] is
    sent for it. *)
Theorem wildcard_first_sight (cfg : Config) (pod : corev1.Pod.t)
    (ty : watch.EventType) (pre : list corev1.ContainerStatus.t)
    (c : corev1.ContainerStatus.t) (post : list corev1.ContainerStatus.t)
    (l : list string) :
  is_upsert ty = true ->
  podFilter cfg (corev1.Pod.Name pod) = true ->
  statuses_of cfg pod = pre ++ c :: post ->
  sole_name c (pre ++ post) ->
  skipped cfg (corev1.ContainerStatus.Name c) = false ->
  Match (containerState cfg) (corev1.ContainerStatus.State c) = false ->
  has_ALL (containerState cfg) = true ->
  let t := target_of pod (corev1.ContainerStatus.Name c) in
  let before := fst (all_statuses cfg pod pre l) in
  let ev := watch.mk ty (Some (watch.PodObject pod)) in
  (In (corev1.Pod.Name pod) before ->
   status_body cfg pod c before = (before, None) /\
   sent_on added t (snd (handle cfg ev l)) = 0) /\
  (~ In (corev1.Pod.Name pod) before ->
   status_body cfg pod c before
   = (before ++ [corev1.Pod.Name pod], Some (added, t)) /\
   sent_on added t (snd (handle cfg ev l)) = 1) /\
  sent_on removed t (snd (handle cfg ev l)) = 0.
Proof.
  intros Hty Hpod Hsts Hsole Hskip Hmatch Hall t before ev.
  unfold ev, t.
  rewrite !(sent_on_child cfg pod ty pre c post l _ Hty Hpod Hsts Hsole).
  fold before. fold t.
  assert (Hbody :
    status_body cfg pod c before
    = if Z.eqb (contains before (corev1.Pod.Name pod)) (-1)
      then (before ++ [corev1.Pod.Name pod], Some (added, t))
      else (before, None)).
  { unfold status_body. now rewrite Hskip, Hmatch, Hall. }
  rewrite Hbody.
  destruct (Z.eqb_spec (contains before (corev1.Pod.Name pod)) (-1)) as [E|E].
  - apply contains_absent in E. split; [|split].
    + intros Hin. contradiction.
    + intros _. split; [reflexivity|].
      unfold emitted, sent_on. cbn. now rewrite target_eqb_refl.
    + reflexivity.
  - assert (Hin : In (corev1.Pod.Name pod) before).
    { destruct (in_dec string_dec (corev1.Pod.Name pod) before) as [H|H];
        [exact H|]. apply contains_absent in H. contradiction. }
    split; [|split].
    + intros _. split; reflexivity.
    + intros Hnot. contradiction.
    + reflexivity.
Qed.

Lemma wildcard_first_sight_witness :
  (In "p1" [] ->
   status_body (Sample.cfg true)
     (Sample.p1 [Sample.status "c1" Sample.waiting])
     (Sample.status "c1" Sample.waiting) [] = ([], None) /\
   sent_on added Sample.t11
     (snd (handle (Sample.cfg true)
             (Sample.event watch.Added
                (Sample.p1 [Sample.status "c1" Sample.waiting])) [])) = 0) /\
  (~ In "p1" [] ->
   status_body (Sample.cfg true)
     (Sample.p1 [Sample.status "c1" Sample.waiting])
     (Sample.status "c1" Sample.waiting) []
   = ([] ++ ["p1"], Some (added, Sample.t11)) /\
   sent_on added Sample.t11
     (snd (handle (Sample.cfg true)
             (Sample.event watch.Added
                (Sample.p1 [Sample.status "c1" Sample.waiting])) [])) = 1) /\
  sent_on removed Sample.t11
    (snd (handle (Sample.cfg true)
            (Sample.event watch.Added
               (Sample.p1 [Sample.status "c1" Sample.waiting])) [])) = 0.
Proof.
  apply (wildcard_first_sight (Sample.cfg true)
           (Sample.p1 [Sample.status "c1" Sample.waiting]) watch.Added
           [] (Sample.status "c1" Sample.waiting) [] []);
    try reflexivity.
  intros c' [].
Defined.

(** The two wildcard events of the specification: first sight, then
    nothing. *)
Example wildcard_first_sight_run :
  handle_all (Sample.cfg true)
    [Sample.event watch.Added (Sample.p1 [Sample.status "c1" Sample.waiting]);
     Sample.event watch.Modified
       (Sample.p1 [Sample.status "c1" Sample.waiting])] []
  = (["p1"], [(added, Sample.t11)]).
Proof. reflexivity. Qed.

(** C10.  With the wildcard off, the loop body reached at a container that
    passes the two guards and whose state the classifier does not match
    sends the target on [removed] whatever the registry holds, and leaves
    a registry without the pod name as it is.  So the first value a
    freshly started goroutine sends can be a [removed]: an [Added] or
    [Modified] event for a pod that passes the pod filter and lists only
    such a container is answered by that [removed] alone. *)
Theorem removed_without_added (cfg : Config) (pod : corev1.Pod.t)
    (c : corev1.ContainerStatus.t) :
  has_ALL (containerState cfg) = false ->
  skipped cfg (corev1.ContainerStatus.Name c) = false ->
  Match (containerState cfg) (corev1.ContainerStatus.State c) = false ->
  let t := target_of pod (corev1.ContainerStatus.Name c) in
  (forall l,
      snd (status_body cfg pod c l) = Some (removed, t) /\
      (~ In (corev1.Pod.Name pod) l -> fst (status_body cfg pod c l) = l)) /\
  (forall ty,
      is_upsert ty = true ->
      podFilter cfg (corev1.Pod.Name pod) = true ->
      statuses_of cfg pod = [c] ->
      exec cfg started
           [Result (watch.mk ty (Some (watch.PodObject pod))); Receive]
      = Some (mkState [] AtSelect false 0 false false [(removed, t)])).
Proof.
  intros Hall Hskip Hmatch t.
  assert (Hbody : forall l,
    status_body cfg pod c l
    = (remove_first (corev1.Pod.Name pod) l, Some (removed, t))).
  { intros l. unfold status_body. rewrite Hskip, Hmatch, Hall.
    now rewrite deregister_spec. }
  split.
  - intros l. rewrite Hbody. split; [reflexivity|].
    intros Hnot. cbn. now apply remove_first_absent.
  - intros ty Hty Hpod Hsts.
    cbn [exec step started pc podNameList ctxDone watcherStops addedClosed
         removedClosed sent].
    unfold on_result. cbn [watch.Object_ watch.Type_]. rewrite Hpod. cbn [negb].
    assert (Hrange : range_statuses cfg pod (statuses_of cfg pod) []
                     = ([], AtSend (removed, t) (InStatuses pod []))).
    { rewrite Hsts. cbn [range_statuses]. now rewrite Hbody. }
    destruct ty; try discriminate; rewrite Hrange; reflexivity.
Qed.

Lemma removed_without_added_witness :
  (forall l,
      snd (status_body (Sample.cfg false)
             (Sample.p1 [Sample.status "c1" Sample.waiting])
             (Sample.status "c1" Sample.waiting) l)
      = Some (removed, Sample.t11) /\
      (~ In "p1" l ->
       fst (status_body (Sample.cfg false)
              (Sample.p1 [Sample.status "c1" Sample.waiting])
              (Sample.status "c1" Sample.waiting) l) = l)) /\
  (forall ty,
      is_upsert ty = true ->
      podFilter (Sample.cfg false) "p1" = true ->
      statuses_of (Sample.cfg false)
        (Sample.p1 [Sample.status "c1" Sample.waiting])
      = [Sample.status "c1" Sample.waiting] ->
      exec (Sample.cfg false) started
           [Result (watch.mk ty
                      (Some (watch.PodObject
                               (Sample.p1 [Sample.status "c1" Sample.waiting]))));
            Receive]
      = Some (mkState [] AtSelect false 0 false false
                [(removed, Sample.t11)])).
Proof.
  apply (removed_without_added (Sample.cfg false)
           (Sample.p1 [Sample.status "c1" Sample.waiting])
           (Sample.status "c1" Sample.waiting));
    reflexivity.
Defined.

(** The first event of the specification's first example: the waiting
    container is answered by a [removed]. *)
Example removed_comes_first :
  exec (Sample.cfg false) started
       [Result (Sample.event watch.Added
                  (Sample.p1 [Sample.status "c1" Sample.waiting]));
        Receive]
  = Some (mkState [] AtSelect false 0 false false [(removed, Sample.t11)]).
Proof. reflexivity. Qed.

(** ** A deleted pod (lines 116-145) *)

Section Deleted.

Variable cfg : Config.
Variable pod : corev1.Pod.t.

(** The [Deleted] loop in closed form. *)
Lemma all_containers_closed (containers : list corev1.Container.t)
    (l : list string) :
  all_containers cfg pod containers l
  = (Nat.iter (List.length (survivors cfg containers))
       (remove_first (corev1.Pod.Name pod)) l,
     map (fun c => (removed, target_of pod (corev1.Container.Name c)))
       (survivors cfg containers)).
Proof.
  revert l. induction containers as [|c rest IH]; intros l;
    [reflexivity|].
  cbn [all_containers survivors filter]. unfold container_body.
  destruct (skipped cfg (corev1.Container.Name c)); cbn [negb fst].
  - fold (survivors cfg rest). now rewrite IH.
  - fold (survivors cfg rest). rewrite IH, deregister_spec.
    cbn [emitted snd List.length map app].
    now rewrite Nat.iter_succ_r.
Qed.

Lemma occurrences_iter_remove_first (n : nat) (name : string)
    (l : list string) :
  occurrences name (Nat.iter n (remove_first (corev1.Pod.Name pod)) l)
  = if String.eqb (corev1.Pod.Name pod) name
    then occurrences name l - n else occurrences name l.
Proof.
  induction n as [|n IH].
  - cbn. destruct (String.eqb _ _); lia.
  - rewrite Nat.iter_succ, occurrences_remove_first, IH.
    destruct (String.eqb _ _); lia.
Qed.

Lemma length_iter_remove_first (n : nat) (l : list string) :
  List.length l
  <= List.length (Nat.iter n (remove_first (corev1.Pod.Name pod)) l) + n.
Proof.
  induction n as [|n IH]; [cbn; lia|].
  rewrite Nat.iter_succ.
  set (l' := Nat.iter n (remove_first (corev1.Pod.Name pod)) l) in *.
  destruct (in_dec string_dec (corev1.Pod.Name pod) l') as [Hin|Hnot].
  - apply length_remove_first in Hin. lia.
  - rewrite remove_first_absent by exact Hnot. lia.
Qed.

End Deleted.

(** C6.  For a [Deleted] event whose pod passes the pod filter, the
    candidates are the containers of the pod specification, followed by
    its init containers when [initContainers] is set; the values sent are
    one [removed] per candidate that passes the two guards, in order and
    without looking at any state, and nothing on [added]; the registry
    loses, for each of them, the first occurrence of the pod name if there
    is one, so at most one entry per such child, and no occurrence of any
    other name. *)
Theorem deleted_removes_every_child (cfg : Config) (pod : corev1.Pod.t)
    (l : list string) :
  podFilter cfg (corev1.Pod.Name pod) = true ->
  let candidates :=
    corev1.Containers (corev1.Pod.Spec pod)
    ++ (if initContainers cfg
        then corev1.InitContainers (corev1.Pod.Spec pod) else []) in
  let kept := survivors cfg candidates in
  let r := handle cfg (watch.mk watch.Deleted (Some (watch.PodObject pod))) l in
  snd r
  = map (fun c => (removed, target_of pod (corev1.Container.Name c))) kept /\
  fst r
  = Nat.iter (List.length kept) (remove_first (corev1.Pod.Name pod)) l /\
  List.length l <= List.length (fst r) + List.length kept /\
  forall name,
    occurrences name (fst r)
    = if String.eqb (corev1.Pod.Name pod) name
      then occurrences name l - List.length kept
      else occurrences name l.
Proof.
  intros Hpod candidates kept r.
  assert (Hr : r = (Nat.iter (List.length kept)
                      (remove_first (corev1.Pod.Name pod)) l,
                    map (fun c =>
                           (removed, target_of pod (corev1.Container.Name c)))
                      kept)).
  { unfold r, handle. cbn [watch.Object_ watch.Type_]. rewrite Hpod.
    cbn [negb]. apply all_containers_closed. }
  rewrite Hr. cbn [fst snd]. repeat split.
  - apply length_iter_remove_first.
  - intros name. apply occurrences_iter_remove_first.
Qed.

Lemma deleted_removes_every_child_witness :
  snd (handle Sample.cfg_exclude
         (Sample.event watch.Deleted
            (Sample.p1 [Sample.status "c1" Sample.running;
                        Sample.status "c2" Sample.running]))
         ["p1"; "p1"])
  = map (fun c => (removed,
                   target_of (Sample.p1 [Sample.status "c1" Sample.running;
                                         Sample.status "c2" Sample.running])
                     (corev1.Container.Name c)))
      [corev1.Container.mk "c1"] /\
  fst (handle Sample.cfg_exclude
         (Sample.event watch.Deleted
            (Sample.p1 [Sample.status "c1" Sample.running;
                        Sample.status "c2" Sample.running]))
         ["p1"; "p1"])
  = Nat.iter 1 (remove_first "p1") ["p1"; "p1"] /\
  List.length ["p1"; "p1"]
  <= List.length
       (fst (handle Sample.cfg_exclude
               (Sample.event watch.Deleted
                  (Sample.p1 [Sample.status "c1" Sample.running;
                              Sample.status "c2" Sample.running]))
               ["p1"; "p1"])) + 1 /\
  forall name,
    occurrences name
      (fst (handle Sample.cfg_exclude
              (Sample.event watch.Deleted
                 (Sample.p1 [Sample.status "c1" Sample.running;
                             Sample.status "c2" Sample.running]))
              ["p1"; "p1"]))
    = if String.eqb "p1" name
      then occurrences name ["p1"; "p1"] - 1
      else occurrences name ["p1"; "p1"].
Proof.
  apply (deleted_removes_every_child Sample.cfg_exclude
           (Sample.p1 [Sample.status "c1" Sample.running;
                       Sample.status "c2" Sample.running])
           ["p1"; "p1"]).
  reflexivity.
Defined.

(** A pod deleted before any of its containers was reported still has
    its children sent on [removed]. *)
Example deleted_unseen_pod :
  handle (Sample.cfg false)
    (Sample.event watch.Deleted
       (Sample.p1 [Sample.status "c1" Sample.waiting;
                   Sample.status "c2" Sample.waiting])) []
  = ([], [(removed, Sample.t11); (removed, Sample.t12)]).
Proof. reflexivity. Qed.

(** ** Setting up (lines 46-54) and [GetID] *)

(** A failed [i.Watch] is wrapped and returned; no goroutine is started. *)
Example watch_setup_fails :
  Watch (Some "forbidden") = WatchFailed "failed to set up watch: forbidden"
  /\ Watch None = WatchStarted started.
Proof. split; reflexivity. Qed.

Example target_id : Target.GetID Sample.t11 = "ns-p1-c1".
Proof. reflexivity. Qed.

(** The three events of the specification's first example, every value
    taken: the transition system and the loop run to completion agree. *)
Example running_then_terminated :
  let events :=
    [Sample.event watch.Added (Sample.p1 [Sample.status "c1" Sample.waiting]);
     Sample.event watch.Modified
       (Sample.p1 [Sample.status "c1" Sample.running]);
     Sample.event watch.Modified
       (Sample.p1 [Sample.status "c1" Sample.terminated])] in
  handle_all (Sample.cfg false) events []
  = ([], [(removed, Sample.t11); (added, Sample.t11); (removed, Sample.t11)])
  /\ exec (Sample.cfg false) started (cooperative (Sample.cfg false) events [])
     = Some (mkState [] AtSelect false 0 false false
               [(removed, Sample.t11); (added, Sample.t11);
                (removed, Sample.t11)]).
Proof. split; reflexivity. Qed.

(** * Further properties *)

(** ** [contains] (lines 159-166) *)

Lemma contains_from_first (name : string) (l : list string) (k : Z) :
  contains_from k l name <> (-1)%Z ->
  let i := Z.to_nat (contains_from k l name - k) in
  nth i l "" = name /\
  forall j, j < i -> nth j l "" <> name.
Proof.
  revert k. induction l as [|x l IH]; intros k; simpl.
  - intros H. now contradiction H.
  - destruct (String.eqb_spec x name) as [->|Hne].
    + intros _. replace (k - k)%Z with 0%Z by lia. simpl.
      split; [reflexivity|]. intros j Hj. lia.
    + intros Hf. destruct (IH (k + 1)%Z Hf) as [Hnth Hmin].
      destruct (contains_from_range name l (k + 1)) as [E|E];
        [contradiction|].
      replace (Z.to_nat (contains_from (k + 1) l name - k))
        with (S (Z.to_nat (contains_from (k + 1) l name - (k + 1)))) by lia.
      split; [exact Hnth|].
      intros [|j] Hj; [exact Hne|]. apply Hmin. lia.
Qed.

(** X1.  [contains] answers [-1] exactly when the item is not in the
    slice, and otherwise the index of its first occurrence: an index
    inside the slice, holding the item, with no occurrence before it. *)
Theorem contains_first_index (l : list string) (name : string) :
  (contains l name = (-1)%Z <-> ~ In name l) /\
  (contains l name = (-1)%Z \/
   (0 <= contains l name < Z.of_nat (List.length l))%Z /\
   nth (Z.to_nat (contains l name)) l "" = name /\
   forall j, j < Z.to_nat (contains l name) -> nth j l "" <> name).
Proof.
  split; [apply contains_absent|].
  unfold contains.
  destruct (Z.eq_dec (contains_from 0 l name) (-1)) as [E|E]; [now left|].
  right. pose proof (contains_from_first name l 0 E) as H. cbn zeta in H.
  rewrite Z.sub_0_r in H.
  destruct (contains_from_range name l 0) as [R|R]; [contradiction|].
  split; [lia|exact H].
Qed.

(** ** The deletion idiom (lines 105-111 and 131-137) *)

Lemma remove_first_split (name : string) (l : list string) :
  In name l ->
  exists a b, l = a ++ name :: b /\ ~ In name a /\ remove_first name l = a ++ b.
Proof.
  induction l as [|x l IH]; simpl; [contradiction|].
  destruct (String.eqb_spec x name) as [->|Hne].
  - intros _. exists [], l. repeat split. intros [].
  - intros [E|Hin]; [contradiction|].
    destruct (IH Hin) as (a & b & -> & Hna & Hrm).
    exists (x :: a), b. repeat split.
    + intros [E|E]; [contradiction|now apply Hna].
    + simpl. now rewrite Hrm.
Qed.

(** X2.  The guarded copy/clear/truncate sequence leaves the registry as
    it is when the name is not in it, and otherwise cuts out the first
    occurrence of the name and nothing else, the other entries keeping
    their order. *)
Theorem deregister_cuts_first_occurrence (l : list string) (name : string) :
  (~ In name l -> deregister l name = l) /\
  (In name l ->
   exists a b,
     l = a ++ name :: b /\ ~ In name a /\ deregister l name = a ++ b).
Proof.
  rewrite deregister_spec. split.
  - apply remove_first_absent.
  - apply remove_first_split.
Qed.

(** X3.  Deregistering a name right after it was appended gives the
    registry back when the name was not in it before; when it was, the
    entry taken out is the oldest one and the appended one stays last. *)
Theorem register_then_deregister (l : list string) (name : string) :
  deregister (l ++ [name]) name
  = if Z.eqb (contains l name) (-1) then l else deregister l name ++ [name].
Proof.
  rewrite !deregister_spec.
  destruct (Z.eqb_spec (contains l name) (-1)) as [E|E].
  - apply contains_absent in E.
    induction l as [|x l IH]; simpl.
    + now rewrite String.eqb_refl.
    + destruct (String.eqb_spec x name) as [->|Hne].
      * exfalso. apply E. now left.
      * f_equal. apply IH. intros H. apply E. now right.
  - assert (Hin : In name l).
    { destruct (in_dec string_dec name l) as [H|H]; [exact H|].
      apply contains_absent in H. contradiction. }
    clear E. induction l as [|x l IH]; simpl; [contradiction|].
    destruct (String.eqb_spec x name) as [->|Hne]; [reflexivity|].
    destruct Hin as [E|Hin]; [contradiction|].
    simpl. f_equal. now apply IH.
Qed.

(** ** [GetID] (lines 38-41) *)

Lemma string_app_assoc (a b c : string) :
  ((a ++ b) ++ c = a ++ (b ++ c))%string.
Proof. induction a as [|x a IH]; simpl; [reflexivity|now rewrite IH]. Qed.

Lemma string_length_app (a b : string) :
  String.length (a ++ b)%string = String.length a + String.length b.
Proof. induction a as [|x a IH]; simpl; [reflexivity|now rewrite IH]. Qed.

Lemma split_at_first_dash (a1 a2 r1 r2 : string) :
  has_dash a1 = false -> has_dash a2 = false ->
  (a1 ++ String "-" r1 = a2 ++ String "-" r2)%string ->
  a1 = a2 /\ r1 = r2.
Proof.
  revert a2. induction a1 as [|x a1 IH]; intros [|y a2]; simpl.
  - intros _ _ [= ->]. now split.
  - intros _ Hd [= <- _]. discriminate Hd.
  - intros Hd _ [= -> _]. discriminate Hd.
  - intros H1 H2 [= -> Heq].
    apply orb_false_iff in H1. apply orb_false_iff in H2.
    destruct (IH a2 (proj2 H1) (proj2 H2) Heq) as [-> ->]. now split.
Qed.

(** X4.  When neither the namespaces nor the pod names of two targets
    contain a dash, equal IDs mean equal targets. *)
Theorem GetID_injective_without_dashes (t u : Target.t) :
  has_dash (Target.Namespace t) = false ->
  has_dash (Target.Pod t) = false ->
  has_dash (Target.Namespace u) = false ->
  has_dash (Target.Pod u) = false ->
  Target.GetID t = Target.GetID u -> t = u.
Proof.
  destruct t as [n1 p1 c1], u as [n2 p2 c2]. unfold Target.GetID. cbn.
  intros Hn1 Hp1 Hn2 Hp2 Heq.
  destruct (split_at_first_dash n1 n2 _ _ Hn1 Hn2 Heq) as [-> Hrest].
  destruct (split_at_first_dash p1 p2 _ _ Hp1 Hp2 Hrest) as [-> ->].
  reflexivity.
Qed.

Lemma GetID_injective_without_dashes_witness :
  Sample.t11 = Sample.t11.
Proof.
  apply (GetID_injective_without_dashes Sample.t11 Sample.t11);
    reflexivity.
Defined.

(** X5.  The ID does not tell where the pod name ends: moving a dashed
    tail of the pod name to the front of the container name gives a
    different target with the same ID. *)
Theorem GetID_collides_on_dashes (ns pod tail container : string) :
  let t := Target.mk ns (pod ++ "-" ++ tail)%string container in
  let u := Target.mk ns pod (tail ++ "-" ++ container)%string in
  t <> u /\ Target.GetID t = Target.GetID u.
Proof.
  intros t u. split.
  - intros [= Hpod _].
    apply (f_equal String.length) in Hpod.
    rewrite string_length_app in Hpod. simpl in Hpod. lia.
  - unfold Target.GetID, t, u. cbn [Target.Namespace Target.Pod Target.Container].
    f_equal. f_equal. rewrite string_app_assoc. simpl. reflexivity.
Qed.

(** ** What gets past the filters (lines 70-72, 83-88, 124-129) *)

Lemma remove_first_subset (x name : string) (l : list string) :
  In name (remove_first x l) -> In name l.
Proof.
  induction l as [|y l IH]; simpl; [contradiction|].
  destruct (String.eqb y x).
  - intros H. now right.
  - intros [E|H]; [now left|right; now apply IH].
Qed.

Lemma unskipped_included (cfg : Config) (name : string) :
  skipped cfg name = false -> containerFilter cfg name = true.
Proof.
  unfold skipped. destruct (containerFilter cfg name); [reflexivity|].
  discriminate.
Qed.

Section Filtered.

Variable cfg : Config.
Variable pod : corev1.Pod.t.
Hypothesis pod_passes : podFilter cfg (corev1.Pod.Name pod) = true.

Lemma status_body_filtered (c : corev1.ContainerStatus.t) (l : list string) :
  registry_filtered cfg l ->
  registry_filtered cfg (fst (status_body cfg pod c l)) /\
  forall e, snd (status_body cfg pod c l) = Some e -> value_filtered cfg e.
Proof.
  intros Hl. split.
  - unfold status_body.
    destruct (skipped cfg _); [exact Hl|].
    assert (Happ : registry_filtered cfg (l ++ [corev1.Pod.Name pod])).
    { intros n Hin. apply in_app_or in Hin.
      destruct Hin as [Hin|[<-|[]]]; [now apply Hl|exact pod_passes]. }
    destruct (Match _ _); [exact Happ|].
    destruct (has_ALL _).
    + destruct (Z.eqb _ _); [exact Happ|exact Hl].
    + cbn. rewrite deregister_spec. intros n Hin.
      apply Hl. now apply remove_first_subset in Hin.
  - intros e He. destruct (status_body_emits cfg pod c l e He) as [Hs Ht].
    unfold value_filtered. rewrite Ht. cbn.
    split; [exact pod_passes|now apply unskipped_included].
Qed.

Lemma container_body_filtered (c : corev1.Container.t) (l : list string) :
  registry_filtered cfg l ->
  registry_filtered cfg (fst (container_body cfg pod c l)) /\
  forall e, snd (container_body cfg pod c l) = Some e -> value_filtered cfg e.
Proof.
  intros Hl. split.
  - unfold container_body.
    destruct (skipped cfg _); [exact Hl|].
    cbn. rewrite deregister_spec. intros n Hin.
    apply Hl. now apply remove_first_subset in Hin.
  - intros e He. destruct (container_body_emits cfg pod c l e He) as [Hs ->].
    unfold value_filtered. cbn.
    split; [exact pod_passes|now apply unskipped_included].
Qed.

Lemma range_statuses_filtered (statuses : list corev1.ContainerStatus.t)
    (l : list string) :
  registry_filtered cfg l ->
  let r := range_statuses cfg pod statuses l in
  registry_filtered cfg (fst r) /\
  (forall e, In e (pending (snd r)) -> value_filtered cfg e) /\
  (forall p, pod_in_hand (snd r) = Some p -> p = pod).
Proof.
  revert l. induction statuses as [|c rest IH]; intros l Hl; simpl.
  - split; [exact Hl|]. split; [contradiction|discriminate].
  - destruct (status_body_filtered c l Hl) as [Hreg Hval].
    destruct (status_body cfg pod c l) as [l1 [x|]]; cbn in *.
    + split; [exact Hreg|]. split.
      * intros e [<-|[]]. now apply Hval.
      * now intros p [= <-].
    + now apply IH.
Qed.

Lemma range_containers_filtered (containers : list corev1.Container.t)
    (l : list string) :
  registry_filtered cfg l ->
  let r := range_containers cfg pod containers l in
  registry_filtered cfg (fst r) /\
  (forall e, In e (pending (snd r)) -> value_filtered cfg e) /\
  (forall p, pod_in_hand (snd r) = Some p -> p = pod).
Proof.
  revert l. induction containers as [|c rest IH]; intros l Hl; simpl.
  - split; [exact Hl|]. split; [contradiction|discriminate].
  - destruct (container_body_filtered c l Hl) as [Hreg Hval].
    destruct (container_body cfg pod c l) as [l1 [x|]]; cbn in *.
    + split; [exact Hreg|]. split.
      * intros e [<-|[]]. now apply Hval.
      * now intros p [= <-].
    + now apply IH.
Qed.

End Filtered.

Lemma all_filtered_step (cfg : Config) (s : State) (a : Action) (s' : State) :
  all_filtered cfg s -> step cfg s a = Some s' -> all_filtered cfg s'.
Proof.
  unfold all_filtered. intros (Hsent & Hreg & Hpod) Hs.
  destruct s as [l c d n ac rc tr]. cbn in Hsent, Hreg, Hpod.
  destruct a as [|ev| |]; cbn in Hs.
  - injection Hs as <-. cbn. auto.
  - destruct c; try discriminate.
    assert (Hon :
      registry_filtered cfg (fst (on_result cfg ev l)) /\
      (forall e, In e (pending (snd (on_result cfg ev l))) ->
                 value_filtered cfg e) /\
      (forall p, pod_in_hand (snd (on_result cfg ev l)) = Some p ->
                 podFilter cfg (corev1.Pod.Name p) = true)).
    { unfold on_result.
      destruct (watch.Object_ ev) as [[pod|]|];
        try (split; [exact Hreg|split; [contradiction|discriminate]]).
      destruct (podFilter cfg (corev1.Pod.Name pod)) eqn:Hp; cbn [negb];
        [|split; [exact Hreg|split; [contradiction|discriminate]]].
      destruct (watch.Type_ ev);
        try (split; [exact Hreg|split; [contradiction|discriminate]]).
      1, 2:
        destruct (range_statuses_filtered cfg pod Hp (statuses_of cfg pod)
                    l Hreg) as (H1 & H2 & H3);
        split; [exact H1|split; [exact H2|]];
        intros p Hin; now rewrite (H3 p Hin).
      destruct (range_containers_filtered cfg pod Hp (containers_of cfg pod)
                  l Hreg) as (H1 & H2 & H3).
      split; [exact H1|split; [exact H2|]].
      intros p Hin. now rewrite (H3 p Hin). }
    destruct (on_result cfg ev l) as [l1 c1]. injection Hs as <-.
    cbn in *. destruct Hon as (H1 & H2 & H3).
    split; [|split; [exact H1|exact H3]].
    intros e Hin. apply in_app_or in Hin. destruct Hin as [Hin|Hin].
    + apply Hsent. apply in_or_app. now left.
    + now apply H2.
  - destruct c; try discriminate. destruct d; [|discriminate].
    injection Hs as <-. cbn. split; [exact Hsent|split; [exact Hreg|]].
    discriminate.
  - destruct c as [|x k|]; try discriminate.
    assert (Hre :
      registry_filtered cfg (fst (resume cfg k l)) /\
      (forall e, In e (pending (snd (resume cfg k l))) ->
                 value_filtered cfg e) /\
      (forall p, pod_in_hand (snd (resume cfg k l)) = Some p ->
                 podFilter cfg (corev1.Pod.Name p) = true)).
    { destruct k as [pod rest|pod rest]; cbn [resume];
        pose proof (Hpod pod eq_refl) as Hp.
      - destruct (range_statuses_filtered cfg pod Hp rest l Hreg)
          as (H1 & H2 & H3).
        split; [exact H1|split; [exact H2|]].
        intros p Hin. now rewrite (H3 p Hin).
      - destruct (range_containers_filtered cfg pod Hp rest l Hreg)
          as (H1 & H2 & H3).
        split; [exact H1|split; [exact H2|]].
        intros p Hin. now rewrite (H3 p Hin). }
    destruct (resume cfg k l) as [l1 c1]. injection Hs as <-.
    cbn in *. destruct Hre as (H1 & H2 & H3).
    split; [|split; [exact H1|exact H3]].
    intros e Hin. apply in_app_or in Hin. destruct Hin as [Hin|Hin].
    + now apply Hsent.
    + now apply H2.
Qed.

(** X6.  Whatever the schedule, every target sent or being sent names a
    pod that matches the pod filter and a container that matches the
    container filter, and every name in the registry matches the pod
    filter. *)
Theorem only_filtered_names (cfg : Config) (schedule : list Action)
    (s : State) :
  exec cfg started schedule = Some s ->
  (forall e, In e (sent s ++ pending (pc s)) ->
             podFilter cfg (Target.Pod (snd e)) = true /\
             containerFilter cfg (Target.Container (snd e)) = true) /\
  (forall name, In name (podNameList s) -> podFilter cfg name = true).
Proof.
  intros Hrun.
  assert (Hinv : all_filtered cfg s).
  { apply (exec_invariant cfg (all_filtered cfg) (fun _ => True))
      with (schedule := schedule) (s := started).
    - intros s0 a s1 H0 _ Hs. exact (all_filtered_step cfg s0 a s1 H0 Hs).
    - apply Forall_any.
    - split; [intros e []|split; [intros n []|discriminate]].
    - exact Hrun. }
  destruct Hinv as (H1 & H2 & _). split; [exact H1|exact H2].
Qed.

Lemma only_filtered_names_witness :
  (forall e, In e (sent SampleRuns.sending_c1
                   ++ pending (pc SampleRuns.sending_c1)) ->
             podFilter (Sample.cfg false) (Target.Pod (snd e)) = true /\
             containerFilter (Sample.cfg false) (Target.Container (snd e))
             = true) /\
  (forall name, In name (podNameList SampleRuns.sending_c1) ->
                podFilter (Sample.cfg false) name = true).
Proof.
  apply (only_filtered_names (Sample.cfg false)
           [Result SampleRuns.c1_runs; Cancel] SampleRuns.sending_c1).
  reflexivity.
Defined.

(** ** Closing the channels (lines 147-151) *)




(** ** A whole [Added] or [Modified] event (lines 75-115) *)

Section WholeEvent.

Variable cfg : Config.
Variable pod : corev1.Pod.t.

Lemma all_statuses_without_wildcard
    (statuses : list corev1.ContainerStatus.t) (l : list string) :
  has_ALL (containerState cfg) = false ->
  all_statuses cfg pod statuses l
  = (fold_left (settle cfg pod) (kept_statuses cfg statuses) l,
     map (verdict cfg pod) (kept_statuses cfg statuses)).
Proof.
  intros Hall. revert l. induction statuses as [|c rest IH]; intros l;
    [reflexivity|].
  cbn [all_statuses kept_statuses filter]. unfold status_body.
  destruct (skipped cfg (corev1.ContainerStatus.Name c)); cbn [negb fst].
  - fold (kept_statuses cfg rest). now rewrite IH.
  - fold (kept_statuses cfg rest). cbn [map fold_left].
    destruct (Match (containerState cfg) (corev1.ContainerStatus.State c))
      eqn:Hm.
    + assert (Hs : settle cfg pod l c = l ++ [corev1.Pod.Name pod])
        by (unfold settle; now rewrite Hm).
      assert (Hv : verdict cfg pod c
                   = (added, target_of pod (corev1.ContainerStatus.Name c)))
        by (unfold verdict; now rewrite Hm).
      rewrite Hs, Hv. cbn [fst snd emitted]. now rewrite IH.
    + assert (Hs : settle cfg pod l c
                   = remove_first (corev1.Pod.Name pod) l)
        by (unfold settle; now rewrite Hm).
      assert (Hv : verdict cfg pod c
                   = (removed, target_of pod (corev1.ContainerStatus.Name c)))
        by (unfold verdict; now rewrite Hm).
      rewrite Hs, Hv, Hall. cbn [fst snd emitted].
      now rewrite IH, deregister_spec.
Qed.

Lemma all_statuses_grow (statuses : list corev1.ContainerStatus.t)
    (l : list string) :
  has_ALL (containerState cfg) = true ->
  fst (all_statuses cfg pod statuses l)
  = l ++ repeat (corev1.Pod.Name pod)
           (List.length (snd (all_statuses cfg pod statuses l))).
Proof.
  intros Hall. revert l. induction statuses as [|c rest IH]; intros l.
  - cbn. now rewrite app_nil_r.
  - cbn [all_statuses].
    assert (Hb :
      status_body cfg pod c l = (l, None) \/
      exists t, status_body cfg pod c l
                = (l ++ [corev1.Pod.Name pod], Some (added, t))).
    { unfold status_body. rewrite Hall.
      destruct (skipped cfg _); [now left|].
      destruct (Match _ _); [right; eauto|].
      destruct (Z.eqb _ _); [right; eauto|now left]. }
    specialize (IH (fst (status_body cfg pod c l))).
    destruct (all_statuses cfg pod rest (fst (status_body cfg pod c l)))
      as [l2 out].
    cbn [fst snd] in *. rewrite IH.
    destruct Hb as [->|[t ->]]; unfold emitted; cbn [fst snd app List.length].
    + reflexivity.
    + cbn [repeat]. now rewrite <- app_assoc.
Qed.

Lemma all_statuses_silent (statuses : list corev1.ContainerStatus.t)
    (l : list string) :
  has_ALL (containerState cfg) = true ->
  In (corev1.Pod.Name pod) l ->
  (forall c, In c statuses ->
             Match (containerState cfg) (corev1.ContainerStatus.State c)
             = false) ->
  all_statuses cfg pod statuses l = (l, []).
Proof.
  intros Hall Hin. induction statuses as [|c rest IH]; intros Hno;
    [reflexivity|].
  cbn [all_statuses].
  assert (Hb : status_body cfg pod c l = (l, None)).
  { unfold status_body. rewrite Hall, (Hno c (or_introl eq_refl)).
    destruct (skipped cfg _); [reflexivity|].
    destruct (Z.eqb_spec (contains l (corev1.Pod.Name pod)) (-1)) as [E|E];
      [|reflexivity].
    apply contains_absent in E. contradiction. }
  rewrite Hb. cbn [fst]. rewrite IH; [reflexivity|].
  intros c' Hc'. apply Hno. now right.
Qed.

Lemma all_statuses_length (statuses : list corev1.ContainerStatus.t)
    (l : list string) :
  List.length (snd (all_statuses cfg pod statuses l)) <= List.length statuses.
Proof.
  revert l. induction statuses as [|c rest IH]; intros l; [cbn; lia|].
  cbn [all_statuses]. specialize (IH (fst (status_body cfg pod c l))).
  destruct (all_statuses cfg pod rest (fst (status_body cfg pod c l)))
    as [l2 out].
  cbn [snd List.length] in *. rewrite length_app. unfold emitted.
  destruct (snd (status_body cfg pod c l)); cbn; lia.
Qed.

Lemma all_containers_length (containers : list corev1.Container.t)
    (l : list string) :
  List.length (snd (all_containers cfg pod containers l))
  <= List.length containers.
Proof.
  revert l. induction containers as [|c rest IH]; intros l; [cbn; lia|].
  cbn [all_containers]. specialize (IH (fst (container_body cfg pod c l))).
  destruct (all_containers cfg pod rest (fst (container_body cfg pod c l)))
    as [l2 out].
  cbn [snd List.length] in *. rewrite length_app. unfold emitted.
  destruct (snd (container_body cfg pod c l)); cbn; lia.
Qed.

End WholeEvent.

(** X8.  With the wildcard off, what an [Added] or [Modified] event for a
    pod that passes the pod filter makes the loop send does not depend on
    the registry: it is, for each listed status that passes the two
    guards and in their order, an [added] when the classifier matches the
    state and a [removed] when it does not; the registry gains the pod
    name for each of the former and loses its first occurrence, if any,
    for each of the latter. *)
Theorem statuses_without_wildcard (cfg : Config) (pod : corev1.Pod.t)
    (ty : watch.EventType) (l : list string) :
  has_ALL (containerState cfg) = false ->
  is_upsert ty = true ->
  podFilter cfg (corev1.Pod.Name pod) = true ->
  handle cfg (watch.mk ty (Some (watch.PodObject pod))) l
  = (fold_left (settle cfg pod) (kept_statuses cfg (statuses_of cfg pod)) l,
     map (verdict cfg pod) (kept_statuses cfg (statuses_of cfg pod))).
Proof.
  intros Hall Hty Hpod. unfold handle. cbn [watch.Object_ watch.Type_].
  rewrite Hpod. cbn [negb].
  destruct ty; try discriminate; now apply all_statuses_without_wildcard.
Qed.

Lemma statuses_without_wildcard_witness :
  handle (Sample.cfg false)
    (watch.mk watch.Added
       (Some (watch.PodObject
                (Sample.p1 [Sample.status "c1" Sample.running;
                            Sample.status "c2" Sample.waiting])))) ["p0"]
  = (fold_left
       (settle (Sample.cfg false)
          (Sample.p1 [Sample.status "c1" Sample.running;
                      Sample.status "c2" Sample.waiting]))
       (kept_statuses (Sample.cfg false)
          (statuses_of (Sample.cfg false)
             (Sample.p1 [Sample.status "c1" Sample.running;
                         Sample.status "c2" Sample.waiting])))
       ["p0"],
     map (verdict (Sample.cfg false)
            (Sample.p1 [Sample.status "c1" Sample.running;
                        Sample.status "c2" Sample.waiting]))
       (kept_statuses (Sample.cfg false)
          (statuses_of (Sample.cfg false)
             (Sample.p1 [Sample.status "c1" Sample.running;
                         Sample.status "c2" Sample.waiting])))).
Proof.
  apply (statuses_without_wildcard (Sample.cfg false)
           (Sample.p1 [Sample.status "c1" Sample.running;
                       Sample.status "c2" Sample.waiting])
           watch.Added ["p0"]);
    reflexivity.
Defined.

(** X9.  Under the wildcard an [Added] or [Modified] event never takes a
    name out of the registry: the registry afterwards is the one before
    followed by one copy of the pod name for each value sent. *)
Theorem wildcard_registry_grows (cfg : Config) (pod : corev1.Pod.t)
    (ty : watch.EventType) (l : list string) :
  has_ALL (containerState cfg) = true ->
  is_upsert ty = true ->
  let h := handle cfg (watch.mk ty (Some (watch.PodObject pod))) l in
  fst h = l ++ repeat (corev1.Pod.Name pod) (List.length (snd h)).
Proof.
  intros Hall Hty. unfold handle. cbn [watch.Object_ watch.Type_].
  destruct (negb (podFilter cfg (corev1.Pod.Name pod)));
    [cbn; now rewrite app_nil_r|].
  destruct ty; try discriminate; now apply all_statuses_grow.
Qed.

Lemma wildcard_registry_grows_witness :
  fst (handle (Sample.cfg true)
         (watch.mk watch.Modified
            (Some (watch.PodObject
                     (Sample.p1 [Sample.status "c1" Sample.running;
                                 Sample.status "c2" Sample.waiting]))))
         ["p0"])
  = ["p0"]
    ++ repeat "p1"
         (List.length
            (snd (handle (Sample.cfg true)
                    (watch.mk watch.Modified
                       (Some (watch.PodObject
                                (Sample.p1
                                   [Sample.status "c1" Sample.running;
                                    Sample.status "c2" Sample.waiting]))))
                    ["p0"]))).
Proof.
  apply (wildcard_registry_grows (Sample.cfg true)
           (Sample.p1 [Sample.status "c1" Sample.running;
                       Sample.status "c2" Sample.waiting])
           watch.Modified ["p0"]);
    reflexivity.
Defined.

(** X10.  Under the wildcard, once the pod name is in the registry, an
    [Added] or [Modified] event in which no listed container is in a
    state the classifier matches sends nothing and leaves the registry as
    it is. *)
Theorem wildcard_silent_once_registered (cfg : Config) (pod : corev1.Pod.t)
    (ty : watch.EventType) (l : list string) :
  has_ALL (containerState cfg) = true ->
  is_upsert ty = true ->
  In (corev1.Pod.Name pod) l ->
  (forall c, In c (statuses_of cfg pod) ->
             Match (containerState cfg) (corev1.ContainerStatus.State c)
             = false) ->
  handle cfg (watch.mk ty (Some (watch.PodObject pod))) l = (l, []).
Proof.
  intros Hall Hty Hin Hno. unfold handle. cbn [watch.Object_ watch.Type_].
  destruct (negb (podFilter cfg (corev1.Pod.Name pod))); [reflexivity|].
  destruct ty; try discriminate; now apply all_statuses_silent.
Qed.

Lemma wildcard_silent_once_registered_witness :
  handle (Sample.cfg true)
    (watch.mk watch.Modified
       (Some (watch.PodObject
                (Sample.p1 [Sample.status "c1" Sample.waiting;
                            Sample.status "c2" Sample.terminated]))))
    ["p1"]
  = (["p1"], []).
Proof.
  apply (wildcard_silent_once_registered (Sample.cfg true)
           (Sample.p1 [Sample.status "c1" Sample.waiting;
                       Sample.status "c2" Sample.terminated])
           watch.Modified ["p1"]);
    try reflexivity.
  - now left.
  - intros c [<-|[<-|[]]]; reflexivity.
Defined.

(** X11.  Handling one event sends at most one value per child the event
    lists for the loop: the statuses of an [Added] or [Modified] pod, the
    specified containers of a [Deleted] one, none otherwise. *)
Theorem one_value_per_candidate (cfg : Config) (ev : watch.Event)
    (l : list string) :
  List.length (snd (handle cfg ev l)) <= candidates cfg ev.
Proof.
  unfold handle, candidates.
  destruct (watch.Object_ ev) as [[pod|]|]; try (cbn; lia).
  destruct (negb _); [cbn; lia|].
  destruct (watch.Type_ ev); try (cbn; lia).
  1, 2: apply all_statuses_length.
  apply all_containers_length.
Qed.

(** ** Events in sequence (lines 57-59) *)

(** X12.  When every value sent is taken before the next event arrives,
    the freshly started goroutine runs through the events in order: it
    ends with the registry and the values, oldest first, that handling
    the events one after the other yields, waiting at the [select], or
    returned when an event had no object. *)
Theorem events_in_order (cfg : Config) (events : list watch.Event) :
  exec cfg started (cooperative cfg events [])
  = Some (mkState (fst (handle_all cfg events []))
            (if forallb has_object events then AtSelect else Returned)
            false 0 false false (snd (handle_all cfg events []))).
Proof.
  exact (cooperative_run cfg events started eq_refl).
Qed.

(** ** Cancellation once the pending values are taken (lines 57-58, 147) *)

Lemma blocked_loop_drains (cfg : Config) (s : State) (e : Emission)
    (k : Resume) :
  pc s = AtSend e k ->
  exists n s',
    exec cfg s (repeat Receive n) = Some s' /\
    pc s' = AtSelect /\ ctxDone s' = ctxDone s /\
    watcherStops s' = watcherStops s /\
    List.length (sent s') = List.length (sent s) + n.
Proof.
  destruct s as [l c d m ac rc tr]. cbn [pc]. intros ->.
  destruct k as [pod rest|pod rest].
  - exists (S (List.length (snd (all_statuses cfg pod rest l)))).
    pose proof (range_statuses_drained cfg pod rest
                  (mkState l AtSelect d m ac rc tr) l [e]) as H.
    cbn zeta in H. cbn [repeat exec step pc resume podNameList ctxDone
                        watcherStops addedClosed removedClosed sent].
    destruct (range_statuses cfg pod rest l) as [l1 c1].
    unfold moved in H. cbn [fst snd ctxDone watcherStops addedClosed
                            removedClosed sent] in H.
    eexists. split; [exact H|]. cbn.
    repeat split. rewrite !length_app. cbn. lia.
  - exists (S (List.length (snd (all_containers cfg pod rest l)))).
    pose proof (range_containers_drained cfg pod rest
                  (mkState l AtSelect d m ac rc tr) l [e]) as H.
    cbn zeta in H. cbn [repeat exec step pc resume podNameList ctxDone
                        watcherStops addedClosed removedClosed sent].
    destruct (range_containers cfg pod rest l) as [l1 c1].
    unfold moved in H. cbn [fst snd ctxDone watcherStops addedClosed
                            removedClosed sent] in H.
    eexists. split; [exact H|]. cbn.
    repeat split. rewrite !length_app. cbn. lia.
Qed.

(** X13.  In whatever state the goroutine has reached without returning,
    once [ctx] is cancelled it is enough that the values of the event in
    hand are taken: after those receives, finitely many, the
    [ctx.Done()] case can be taken, and taking it stops the watch for the
    first time, closes both channels and ends the goroutine, the values
    sent meanwhile being exactly the ones taken. *)
Theorem cancellation_after_draining (cfg : Config) (schedule : list Action)
    (s : State) :
  exec cfg started schedule = Some s ->
  ctxDone s = true ->
  pc s <> Returned ->
  exists n s',
    exec cfg s (repeat Receive n ++ [Done]) = Some s' /\
    pc s' = Returned /\ watcherStops s' = 1 /\
    addedClosed s' = true /\ removedClosed s' = true /\
    List.length (sent s') = List.length (sent s) + n.
Proof.
  intros Hrun Hdone Hpc.
  destruct (reachable_running_untouched cfg schedule s Hrun Hpc)
    as (Hstops & _ & _).
  assert (Hfinish : forall s1,
    pc s1 = AtSelect -> ctxDone s1 = true -> watcherStops s1 = 0 ->
    exists s', step cfg s1 Done = Some s' /\
      pc s' = Returned /\ watcherStops s' = 1 /\
      addedClosed s' = true /\ removedClosed s' = true /\
      sent s' = sent s1).
  { intros [l c d m ac rc tr]. cbn. intros -> -> ->.
    eexists. split; [reflexivity|]. cbn. repeat split. }
  destruct (pc s) as [|e k|] eqn:Hc; [| |now contradiction Hpc].
  - exists 0. destruct (Hfinish s Hc Hdone Hstops) as (s' & Hs & H).
    exists s'. cbn [repeat app exec]. rewrite Hs. split; [reflexivity|].
    destruct H as (? & ? & ? & ? & ->). repeat split; auto.
  - destruct (blocked_loop_drains cfg s e k Hc)
      as (n & s1 & Hex & Hpc1 & Hd1 & Hst1 & Hlen).
    destruct (Hfinish s1 Hpc1 ltac:(congruence) ltac:(congruence))
      as (s' & Hs & H).
    exists n, s'. rewrite exec_app, Hex. cbn [exec]. rewrite Hs.
    split; [reflexivity|].
    destruct H as (? & ? & ? & ? & ->). repeat split; auto.
Qed.

Lemma cancellation_after_draining_witness :
  exists n s',
    exec (Sample.cfg false) SampleRuns.sending_c1
         (repeat Receive n ++ [Done]) = Some s' /\
    pc s' = Returned /\ watcherStops s' = 1 /\
    addedClosed s' = true /\ removedClosed s' = true /\
    List.length (sent s') = List.length (sent SampleRuns.sending_c1) + n.
Proof.
  apply (cancellation_after_draining (Sample.cfg false)
           [Result SampleRuns.c1_runs; Cancel] SampleRuns.sending_c1).
  - reflexivity.
  - reflexivity.
  - discriminate.
Defined.
